(** * Scholarship watcher: the subscription endpoint, its store and the
      countries endpoint

    A shallow embedding of [netlify/functions/subscribe.js] and of the
    countries function (the JavaScript that follows the text of
    [Dockerfile] in the sources), followed by the properties of the
    specification that concern them; then the event handlers of
    [web/script.js] and further properties of all three.

    Modelling conventions.
    - A JavaScript string is a Rocq [string]; its characters are taken
      in the ASCII range, where [toLowerCase], [toUpperCase], [trim] and
      the class [\s] act as defined below (other code units are left
      alone by the case maps and are not white space).
    - A value produced by [JSON.parse] is a [jsval]; numbers are
      restricted to integers.  [undefined] is the [None] of an option.
    - The built-ins [JSON.parse], [URLSearchParams] and
      [String.prototype.localeCompare] are parameters of the sections
      that use them.
    - Effects (the file system, the clock, exceptions) are threaded
      through the monad [JS].  Console output is not recorded, but an
      exception raised while its argument is computed is. *)

From Stdlib Require Import ZArith Ascii String.
From stdpp Require Import base list strings gmap sorting.

Local Open Scope Z_scope.

(** ** Strings *)

Module JsString.

Definition shift_case (lo hi : N) (delta : Z) (c : ascii) : ascii :=
  let n := N_of_ascii c in
  if ((lo <=? n) && (n <=? hi))%N
  then ascii_of_N (Z.to_N (Z.of_N n + delta))
  else c.

(** [A]..[Z] are 65..90, [a]..[z] are 97..122. *)
Definition lower_char : ascii → ascii := shift_case 65 90 32.
Definition upper_char : ascii → ascii := shift_case 97 122 (-32).

Fixpoint map_chars (f : ascii → ascii) (s : string) : string :=
  match s with
  | EmptyString => EmptyString
  | String c s' => String (f c) (map_chars f s')
  end.

Definition toLowerCase : string → string := map_chars lower_char.
Definition toUpperCase : string → string := map_chars upper_char.

(** White space as [trim] and [\s] see it. *)
Definition is_space : ascii → bool := Ascii.is_space.

Fixpoint trimStart (s : string) : string :=
  match s with
  | EmptyString => EmptyString
  | String c s' => if is_space c then trimStart s' else s
  end.

Fixpoint trimEnd (s : string) : string :=
  match s with
  | EmptyString => EmptyString
  | String c s' =>
      match trimEnd s' with
      | EmptyString => if is_space c then EmptyString else String c EmptyString
      | r => String c r
      end
  end.

Definition trim (s : string) : string := trimEnd (trimStart s).

(** [s.split(sep)] for a separator of one character: never empty. *)
Fixpoint split (sep : ascii) (s : string) : list string :=
  match s with
  | EmptyString => [EmptyString]
  | String c s' =>
      if Ascii.eqb c sep then EmptyString :: split sep s'
      else match split sep s' with
           | [] => [String c EmptyString]
           | w :: ws => String c w :: ws
           end
  end.

(** [s.includes(sub)] *)
Fixpoint includes (s sub : string) : bool :=
  String.prefix sub s ||
  match s with
  | EmptyString => false
  | String _ s' => includes s' sub
  end.

Definition is_empty (s : string) : bool :=
  match s with EmptyString => true | _ => false end.

Fixpoint all_chars (p : ascii → bool) (s : string) : bool :=
  match s with
  | EmptyString => true
  | String c s' => p c && all_chars p s'
  end.

Fixpoint mem_char (c : ascii) (s : string) : bool :=
  match s with
  | EmptyString => false
  | String d s' => Ascii.eqb d c || mem_char c s'
  end.

End JsString.
Import JsString.

(** ** Regular expressions, as far as the source uses them *)

Module Regex.

Inductive regex : Type :=
| Void
| Eps
| Class (p : ascii → bool)
| Cat (r1 r2 : regex)
| Alt (r1 r2 : regex)
| Star (r : regex).

Definition Plus (r : regex) : regex := Cat r (Star r).
Definition Lit (c : ascii) : regex := Class (λ x, Ascii.eqb x c).

(** The strings a regular expression denotes. *)
Inductive lang : regex → string → Prop :=
| lang_eps : lang Eps EmptyString
| lang_class p c : p c = true → lang (Class p) (String c EmptyString)
| lang_cat r1 r2 s1 s2 :
    lang r1 s1 → lang r2 s2 → lang (Cat r1 r2) (s1 +:+ s2)
| lang_alt_l r1 r2 s : lang r1 s → lang (Alt r1 r2) s
| lang_alt_r r1 r2 s : lang r2 s → lang (Alt r1 r2) s
| lang_star_nil r : lang (Star r) EmptyString
| lang_star_cons r s1 s2 :
    lang r s1 → lang (Star r) s2 → lang (Star r) (s1 +:+ s2).

Fixpoint nullable (r : regex) : bool :=
  match r with
  | Void => false
  | Eps => true
  | Class _ => false
  | Cat r1 r2 => nullable r1 && nullable r2
  | Alt r1 r2 => nullable r1 || nullable r2
  | Star _ => true
  end.

Fixpoint deriv (c : ascii) (r : regex) : regex :=
  match r with
  | Void => Void
  | Eps => Void
  | Class p => if p c then Eps else Void
  | Cat r1 r2 =>
      if nullable r1
      then Alt (Cat (deriv c r1) r2) (deriv c r2)
      else Cat (deriv c r1) r2
  | Alt r1 r2 => Alt (deriv c r1) (deriv c r2)
  | Star r1 => Cat (deriv c r1) (Star r1)
  end.

(** [/^r$/.test(s)]: the whole of [s] is matched. *)
Fixpoint test (r : regex) (s : string) : bool :=
  match s with
  | EmptyString => nullable r
  | String c s' => test (deriv c r) s'
  end.

End Regex.
Import Regex.

(** ** JavaScript values and the effect monad *)

#[warnings="-register-all"]
Inductive jsval : Type :=
| JNull
| JBool (b : bool)
| JNum (n : Z)
| JStr (s : string)
| JArr (items : list jsval)
| JObj (props : list (string * jsval)).

(** [!v] for a value that may be [undefined]. *)
Definition falsy (v : option jsval) : bool :=
  match v with
  | None | Some JNull => true
  | Some (JBool b) => negb b
  | Some (JNum n) => n =? 0
  | Some (JStr s) => is_empty s
  | Some (JArr _) | Some (JObj _) => false
  end.

(** Own properties of an object, in insertion order. *)
Fixpoint get_prop (props : list (string * jsval)) (key : string) : option jsval :=
  match props with
  | [] => None
  | (k, v) :: rest => if String.eqb k key then Some v else get_prop rest key
  end.

Fixpoint set_prop (props : list (string * jsval)) (key : string) (v : jsval)
  : list (string * jsval) :=
  match props with
  | [] => [(key, v)]
  | (k, v0) :: rest =>
      if String.eqb k key then (k, v) :: rest else (k, v0) :: set_prop rest key v
  end.

(** Equality of [Set] members.  Arrays and objects are compared by
    reference, and every array or object in this program is a fresh
    result of [JSON.parse], so two of them are never the same. *)
Definition sameValueZero (a b : jsval) : bool :=
  match a, b with
  | JNull, JNull => true
  | JBool x, JBool y => Bool.eqb x y
  | JNum x, JNum y => x =? y
  | JStr x, JStr y => String.eqb x y
  | _, _ => false
  end.

(** [new Set(xs)] read back in insertion order: [Set_add] is
    [Set.prototype.add]. *)
Definition Set_add (seen : list jsval) (x : jsval) : list jsval :=
  if existsb (sameValueZero x) seen then seen else seen ++ [x].

Definition new_Set (xs : list jsval) : list jsval := fold_left Set_add xs [].

(** ** The subscriber document and the world around a request *)

Record Subscriber := mkSubscriber {
  email : string;
  countries : jsval;
  created_at : jsval;
  updated_at : option string;
  active : bool
}.

Record Document := mkDocument {
  subscribers : list Subscriber;
  last_updated : option string;
  version : string
}.

(** What [data/subscribers.json] holds: text that [JSON.parse] rejects,
    or a document of the schema above.  Text that parses to a value of
    another shape (no [subscribers] array, a record without a string
    [email]) is not represented. *)
Inductive FileContent : Type :=
| Unparseable (raw : string)
| Parsed (data : Document).

Inductive Disk : Type :=
| NoDirectory
| NoFile
| File (content : FileContent).

(** [clock n] is what the [n]-th call of [new Date().toISOString()]
    returns. *)
Record World := mkWorld {
  disk : Disk;
  clock : nat → string;
  clock_reads : nat
}.

(** A computation that may throw; exceptions carry no payload, the
    program only logs them. *)
Inductive outcome (A : Type) : Type :=
| Normal (a : A)
| Thrown.
Arguments Normal {A} a.
Arguments Thrown {A}.

#[global] Instance outcome_ret : MRet outcome := λ A, Normal.
#[global] Instance outcome_bind : MBind outcome :=
  λ A B k m, match m with Normal a => k a | Thrown => Thrown end.

(** [try { m } catch { handler }] without effects. *)
Definition catching {A} (m : outcome A) (handler : outcome A) : outcome A :=
  match m with
  | Normal a => Normal a
  | Thrown => handler
  end.

(** A computation that may also read and change the world. *)
Definition JS (A : Type) : Type := World → outcome A * World.

#[global] Instance JS_ret : MRet JS := λ A a w, (Normal a, w).
#[global] Instance JS_bind : MBind JS :=
  λ A B k m w, match m w with
               | (Normal a, w') => k a w'
               | (Thrown, w') => (Thrown, w')
               end.

Definition lift {A} (o : outcome A) : JS A := λ w, (o, w).

(** [try { m } catch { handler }]: the handler starts from the world
    the exception left behind. *)
Definition try_catch {A} (m : JS A) (handler : JS A) : JS A :=
  λ w, match m w with
       | (Normal a, w') => (Normal a, w')
       | (Thrown, w') => handler w'
       end.

(** [new Date().toISOString()] *)
Definition now : JS string :=
  λ w, (Normal (clock w (clock_reads w)),
        mkWorld (disk w) (clock w) (S (clock_reads w))).

Definition set_disk (d : Disk) : JS unit :=
  λ w, (Normal tt, mkWorld d (clock w) (clock_reads w)).

Definition file_exists : JS bool :=
  λ w, (Normal match disk w with File _ => true | _ => false end, w).

Definition directory_exists : JS bool :=
  λ w, (Normal match disk w with NoDirectory => false | _ => true end, w).

(** [JSON.parse(fs.readFileSync(SUBSCRIBERS_PATH, 'utf8'))] *)
Definition read_document : JS Document :=
  λ w, match disk w with
       | File (Parsed data) => (Normal data, w)
       | _ => (Thrown, w)
       end.

(** [fs.mkdirSync(dir, { recursive: true })] *)
Definition mkdir : JS unit :=
  λ w, match disk w with
       | NoDirectory => set_disk NoFile w
       | _ => (Normal tt, w)
       end.

(** [fs.writeFileSync(SUBSCRIBERS_PATH, JSON.stringify(data, null, 2), 'utf8')] *)
Definition write_document (data : Document) : JS unit :=
  λ w, match disk w with
       | NoDirectory => (Thrown, w)
       | _ => set_disk (File (Parsed data)) w
       end.

(** [v[key]] for the keys this program reads ([email], [countries],
    [created_at], [error], [length]), none of which is inherited from a
    prototype; for other keys the own properties alone do not decide
    the result.  [null] has no properties. *)
Definition member (v : jsval) (key : string) : outcome (option jsval) :=
  match v with
  | JNull => Thrown
  | JObj props => Normal (get_prop props key)
  | JArr items =>
      Normal (if String.eqb key "length"
              then Some (JNum (Z.of_nat (length items))) else None)
  | JStr s =>
      Normal (if String.eqb key "length"
              then Some (JNum (Z.of_nat (String.length s))) else None)
  | JBool _ | JNum _ => Normal None
  end.

(** [[...v]]: arrays and strings are iterable, the other values are not. *)
Definition spread (v : jsval) : outcome (list jsval) :=
  match v with
  | JArr items => Normal items
  | JStr s =>
      Normal (map (λ c, JStr (String c EmptyString)) (list_ascii_of_string s))
  | _ => Thrown
  end.

(** [arr.findIndex(p)] *)
Fixpoint findIndex {A} (p : A → bool) (l : list A) : Z :=
  match l with
  | [] => -1
  | x :: l' =>
      if p x then 0
      else let i := findIndex p l' in if i <? 0 then -1 else i + 1
  end.

(** [Array.prototype.sort(cmp)] for a consistent comparator: the stable
    sorted rearrangement, here by insertion from the right. *)
Fixpoint sort_insert {A} (cmp : A → A → Z) (x : A) (l : list A) : list A :=
  match l with
  | [] => [x]
  | y :: l' => if 0 <? cmp x y then y :: sort_insert cmp x l' else x :: l
  end.

Fixpoint Array_sort {A} (cmp : A → A → Z) (l : list A) : list A :=
  match l with
  | [] => []
  | x :: l' => sort_insert cmp x (Array_sort cmp l')
  end.

(** ** HTTP responses *)

Record CountryEntry := mkEntry {
  entry_code : string;
  entry_name : string;
  entry_enabled : bool
}.

(** The object handed to [JSON.stringify] for the response body. *)
Inductive Payload : Type :=
| ErrorBody (error : string)
| SubscribedBody (success : bool) (message : string)
    (subscriber_email : string) (subscriber_countries : jsval)
| CountriesBody (entries : list CountryEntry).

Record Response := mkResponse {
  statusCode : Z;
  response_headers : list (string * string);
  response_body : Payload
}.

(** ** netlify/functions/subscribe.js *)

Module Subscribe.

Record Event := mkEvent {
  httpMethod : string;
  headers : gmap string string;
  body : option string
}.

Definition not_space_or_at (c : ascii) : bool :=
  negb (is_space c) && negb (Ascii.eqb c "@").

(** [/^[^\s@]+@[^\s@]+\.[^\s@]+$/] *)
Definition emailRegex : regex :=
  Cat (Plus (Class not_space_or_at))
    (Cat (Lit "@")
       (Cat (Plus (Class not_space_or_at))
          (Cat (Lit ".") (Plus (Class not_space_or_at))))).

Definition isValidEmail (email : option jsval) : bool :=
  match email with
  | Some (JStr s) => if is_empty s then false else test emailRegex s
  | _ => false
  end.

Definition empty_document : Document := mkDocument [] None "1.0".

(** [s.email.toLowerCase() === newSubscriber.email.toLowerCase()] *)
Definition same_email (newSubscriber s : Subscriber) : bool :=
  String.eqb (toLowerCase (email s)) (toLowerCase (email newSubscriber)).

(** [String(v)] does not throw.  Converting an object calls its
    [toString]; an own property [toString] of a parsed object hides the
    inherited method and is never a function, so the conversion throws
    a [TypeError].  An array is converted by joining its elements. *)
Fixpoint stringifiable (v : jsval) : bool :=
  match v with
  | JObj props =>
      match get_prop props "toString" with
      | Some _ => false
      | None => true
      end
  | JArr items => forallb stringifiable items
  | JNull | JBool _ | JNum _ | JStr _ => true
  end.

(** [v.join(', ')] returns: only arrays have [join], and it converts
    each element other than [null] to a string. *)
Definition joinable (v : jsval) : bool :=
  match v with
  | JArr items => forallb stringifiable items
  | _ => false
  end.

(** [newSubscriber.countries.join(', ')], evaluated for the log line. *)
Definition join_countries (v : jsval) : outcome unit :=
  if joinable v then Normal tt else Thrown.

(** The branch of [saveSubscriber] taken when a record matches. *)
Definition merge_into (existing newSubscriber : Subscriber) : JS Subscriber :=
  old ← lift (spread (countries existing));
  new ← lift (spread (countries newSubscriber));
  t ← now;
  mret (mkSubscriber (email existing) (JArr (new_Set (old ++ new)))
          (created_at existing) (Some t) true).

Definition saveSubscriber (newSubscriber : Subscriber) : JS bool :=
  try_catch
    (present ← file_exists;
     data ← (if present : bool then read_document else mret empty_document);
     let existingIndex := findIndex (same_email newSubscriber) (subscribers data) in
     subscribers' ←
       (if 0 <=? existingIndex then
          match subscribers data !! Z.to_nat existingIndex with
          | None => lift Thrown
          | Some existing =>
              merged ← merge_into existing newSubscriber;
              mret (<[Z.to_nat existingIndex := merged]> (subscribers data))
          end
        else mret (subscribers data ++ [newSubscriber]));
     t ← now;
     let data' := mkDocument subscribers' (Some t) (version data) in
     has_dir ← directory_exists;
     (if has_dir : bool then mret tt else mkdir);;
     write_document data';;
     lift (join_countries (countries newSubscriber));;
     mret true)
    (mret false).

Section Handler.

(** [JSON.parse]: [None] when it throws a [SyntaxError]. *)
Variable JSON_parse : string → option jsval.
(** [new URLSearchParams(body)], iterated. *)
Variable URLSearchParams : string → list (string * string).

Definition parse_json (text : string) : outcome jsval :=
  match JSON_parse text with
  | Some v => Normal v
  | None => Thrown
  end.

(** [contentType?.includes(sub)] *)
Definition type_includes (contentType : option string) (sub : string) : bool :=
  match contentType with
  | Some ct => includes ct sub
  | None => false
  end.

(** [result[key] = value] for a string [value]: the key [__proto__]
    reaches the inherited setter, which ignores a string. *)
Definition assign_param (result : list (string * jsval)) (kv : string * string)
  : list (string * jsval) :=
  if String.eqb kv.1 "__proto__" then result
  else set_prop result kv.1 (JStr kv.2).

Definition parseBody (body : option string) (contentType : option string)
  : outcome jsval :=
  match body with
  | None | Some EmptyString => Normal (JObj [])
  | Some text =>
      if type_includes contentType "application/json" then parse_json text
      else if type_includes contentType "application/x-www-form-urlencoded" then
        Normal (JObj (fold_left assign_param (URLSearchParams text) []))
      else catching (parse_json text) (Normal (JObj []))
  end.

(** [body.email?.trim().toLowerCase()] *)
Definition normalize_email (raw : option jsval) : outcome (option string) :=
  match raw with
  | None | Some JNull => Normal None
  | Some (JStr s) => Normal (Some (toLowerCase (trim s)))
  | Some _ => Thrown
  end.

(** [countriesRaw.map(c => c.toUpperCase())] *)
Fixpoint upper_each (items : list jsval) : outcome (list jsval) :=
  match items with
  | [] => Normal []
  | JStr s :: rest => rest' ← upper_each rest; mret (JStr (toUpperCase s) :: rest')
  | _ :: _ => Thrown
  end.

(** [countriesRaw.split(',').map(c => c.trim().toUpperCase()).filter(Boolean)] *)
Definition split_countries (countriesRaw : string) : list string :=
  List.filter (λ c, negb (is_empty c))
    (map (λ c, toUpperCase (trim c)) (split "," countriesRaw)).

Definition normalize_countries (countriesRaw : option jsval) : outcome jsval :=
  match countriesRaw with
  | Some (JStr s) =>
      catching (parse_json s) (Normal (JArr (map JStr (split_countries s))))
  | Some (JArr items) => up ← upper_each items; mret (JArr up)
  | _ => Normal (JArr [])
  end.

(** [!countries || countries.length === 0] *)
Definition no_countries (countries : jsval) : outcome bool :=
  if falsy (Some countries) then Normal true
  else len ← member countries "length";
       mret match len with Some (JNum 0) => true | _ => false end.

Definition respond (status : Z) (payload : Payload) : Response :=
  mkResponse status [] payload.

Definition subscribed (subscriber : Subscriber) : Response :=
  mkResponse 200 [("Content-Type", "application/json")]
    (SubscribedBody true "Subscription successful"
       (email subscriber) (countries subscriber)).

Definition handler (event : Event) : JS Response :=
  if negb (String.eqb (httpMethod event) "POST") then
    mret (respond 405 (ErrorBody "Method not allowed"))
  else
    try_catch
      (body ← lift (parseBody (body event) (headers event !! "content-type"));
       email_raw ← lift (member body "email");
       email ← lift (normalize_email email_raw);
       countriesRaw ← lift (member body "countries");
       created_raw ← lift (member body "created_at");
       createdAt ← (if falsy created_raw then t ← now; mret (JStr t)
                    else mret (default JNull created_raw));
       if falsy (JStr <$> email) || negb (isValidEmail (JStr <$> email)) then
         mret (respond 400 (ErrorBody "Invalid email address"))
       else
         countries ← lift (normalize_countries countriesRaw);
         none ← lift (no_countries countries);
         if none : bool then
           mret (respond 400 (ErrorBody "At least one country must be selected"))
         else
           let subscriber :=
             mkSubscriber (default EmptyString email) countries createdAt None true in
           saved ← saveSubscriber subscriber;
           if saved : bool then mret (subscribed subscriber)
           else mret (respond 500 (ErrorBody "Failed to save subscription")))
      (mret (respond 500 (ErrorBody "Internal server error"))).

End Handler.

End Subscribe.

(** ** The countries function

    [handler] and [getDefaultCountries] of the countries endpoint; in
    the sources they follow the text of [Dockerfile]. *)

Module Countries.

(** An entry of [config/countries.json]; [enabled] may be left out. *)
Record Country := mkCountry {
  code : string;
  name : string;
  enabled : option jsval
}.

Inductive ConfigFile : Type :=
| Missing
| Malformed (raw : string)
| Config (countries : list Country).

Definition getDefaultCountries : list Country :=
  [ mkCountry "NO" "Norway" (Some (JBool true));
    mkCountry "SE" "Sweden" (Some (JBool true));
    mkCountry "DE" "Germany" (Some (JBool true));
    mkCountry "NL" "Netherlands" (Some (JBool true));
    mkCountry "DK" "Denmark" (Some (JBool true));
    mkCountry "FI" "Finland" (Some (JBool true));
    mkCountry "FR" "France" (Some (JBool true));
    mkCountry "BE" "Belgium" (Some (JBool true));
    mkCountry "AT" "Austria" (Some (JBool true));
    mkCountry "CH" "Switzerland" (Some (JBool true));
    mkCountry "IT" "Italy" (Some (JBool true));
    mkCountry "ES" "Spain" (Some (JBool true));
    mkCountry "PT" "Portugal" (Some (JBool true));
    mkCountry "IE" "Ireland" (Some (JBool true));
    mkCountry "PL" "Poland" (Some (JBool true));
    mkCountry "CZ" "Czech Republic" (Some (JBool true));
    mkCountry "HU" "Hungary" (Some (JBool true));
    mkCountry "EU" "European Union" (Some (JBool true)) ].

(** [c.enabled !== false] *)
Definition not_disabled (c : Country) : bool :=
  match enabled c with
  | Some (JBool false) => false
  | _ => true
  end.

Definition emit (c : Country) : CountryEntry := mkEntry (code c) (name c) true.

(** The configuration as the [try] block obtains it. *)
Definition load (config : ConfigFile) : outcome (list Country) :=
  match config with
  | Config countries => Normal countries
  | Malformed _ => Thrown
  | Missing => Normal getDefaultCountries
  end.

Section Handler.

(** [a.localeCompare(b)] *)
Variable localeCompare : string → string → Z.

Definition by_name (a b : CountryEntry) : Z :=
  localeCompare (entry_name a) (entry_name b).

Definition handler (config : ConfigFile) : Response :=
  match load config with
  | Normal countries =>
      mkResponse 200
        [("Content-Type", "application/json");
         ("Cache-Control", "public, max-age=3600");
         ("Access-Control-Allow-Origin", "*")]
        (CountriesBody
           (Array_sort by_name (map emit (List.filter not_disabled countries))))
  | Thrown =>
      mkResponse 500 [("Content-Type", "application/json")]
        (ErrorBody "Failed to load countries")
  end.

End Handler.

End Countries.

(** ** Sample environments, used to run the definitions *)

Module Sample.

Definition quote : string := String "034" EmptyString.

(** The text [["no"," se"]]. *)
Definition lower_array_text : string :=
  "[" +:+ quote +:+ "no" +:+ quote +:+ "," +:+ quote +:+ " se" +:+ quote +:+ "]".

(** [JSON.parse] on the texts the examples use; any other text is taken
    as one it rejects. *)
Definition JSON_parse (text : string) : option jsval :=
  if String.eqb text lower_array_text then Some (JArr [JStr "no"; JStr " se"])
  else if String.eqb text "[]" then Some (JArr [])
  else None.

(** The form body [email=a%40b.co&countries=%5B%22no%22%2C%22%20se%22%5D]. *)
Definition form_text : string :=
  "email=a%40b.co&countries=%5B%22no%22%2C%22%20se%22%5D".

(** [URLSearchParams] on [form_text]; any other text is taken as one
    without parameters. *)
Definition URLSearchParams (text : string) : list (string * string) :=
  if String.eqb text form_text
  then [("email", "a@b.co"); ("countries", lower_array_text)]
  else [].

Definition form_headers : gmap string string :=
  {[ "content-type" := "application/x-www-form-urlencoded" ]}.

Definition clock (n : nat) : string :=
  match n with
  | O => "2024-01-01T00:00:00.000Z"
  | 1%nat => "2024-01-01T00:00:01.000Z"
  | 2%nat => "2024-01-01T00:00:02.000Z"
  | _ => "2024-01-01T00:00:03.000Z"
  end.

Definition world (d : Disk) : World := mkWorld d clock 0.

(** Comparison of code units, standing for [localeCompare] on plain
    ASCII names. *)
Definition localeCompare (a b : string) : Z :=
  match String.compare a b with
  | Lt => -1
  | Eq => 0
  | Gt => 1
  end.

Definition bob : Subscriber :=
  mkSubscriber "bob@example.com" (JArr [JStr "FI"])
    (JStr "2023-12-30T00:00:00.000Z") None true.

Definition ann : Subscriber :=
  mkSubscriber "ann@example.com" (JArr [JStr "NO"; JStr "SE"])
    (JStr "2023-12-31T00:00:00.000Z") None false.

Definition ann_again : Subscriber :=
  mkSubscriber "Ann@Example.com" (JArr [JStr "SE"; JStr "DK"])
    (JStr "2024-01-01T00:00:00.000Z") None true.

Definition document : Document :=
  mkDocument [bob; ann] (Some "2023-12-31T00:00:00.000Z") "1.0".

Definition get_event : Subscribe.Event := Subscribe.mkEvent "GET" ∅ None.
Definition empty_post : Subscribe.Event := Subscribe.mkEvent "POST" ∅ None.
Definition form_post : Subscribe.Event :=
  Subscribe.mkEvent "POST" form_headers (Some form_text).

(** A configuration out of order, with one entry switched off and one
    without the flag. *)
Definition config : list Countries.Country :=
  [ Countries.mkCountry "SE" "Sweden" (Some (JBool true));
    Countries.mkCountry "XX" "Atlantis" (Some (JBool false));
    Countries.mkCountry "NO" "Norway" None;
    Countries.mkCountry "DE" "Germany" (Some (JBool true)) ].

End Sample.

(** ** Vocabulary of the specification *)

(** The accepted pattern in the words of the specification: one or more
    non-space/non-@ characters, then [@], one or more such characters,
    a dot, and one or more such characters. *)
Definition email_part (s : string) : Prop :=
  s ≠ EmptyString ∧ all_chars Subscribe.not_space_or_at s = true.

Definition email_pattern (s : string) : Prop :=
  ∃ l d t, s = l +:+ "@" +:+ d +:+ "." +:+ t
           ∧ email_part l ∧ email_part d ∧ email_part t.

(** The document [saveSubscriber] starts from: the parsed file, or the
    empty document when there is no file; nothing when the file does
    not parse. *)
Definition loaded (w : World) : option Document :=
  match disk w with
  | File (Parsed data) => Some data
  | File (Unparseable _) => None
  | NoDirectory | NoFile => Some Subscribe.empty_document
  end.

Definition is_array (v : jsval) : bool :=
  match v with JArr _ => true | _ => false end.

Definition lower_email (s : Subscriber) : string := toLowerCase (email s).

(** At most one record per lowercase email. *)
Definition unique_emails (subs : list Subscriber) : Prop :=
  NoDup (map lower_email subs).

(** The records of [subs] that [e] matches case-insensitively. *)
Definition records_for (e : string) (subs : list Subscriber) : list Subscriber :=
  List.filter (λ s, String.eqb (lower_email s) (toLowerCase e)) subs.

(** The world after a write of [data] that took [ticks] clock readings. *)
Definition written (w : World) (data : Document) (ticks : nat) : World :=
  mkWorld (File (Parsed data)) (clock w) (ticks + clock_reads w).

(** The world in which the handler validates its input: the clock has
    been read once if the body gave no usable [created_at]. *)
Definition after_created_at (created_raw : option jsval) (w : World) : World :=
  if falsy created_raw
  then mkWorld (disk w) (clock w) (S (clock_reads w))
  else w.

(** [body.created_at || new Date().toISOString()] *)
Definition created_at_of (created_raw : option jsval) (w : World) : jsval :=
  if falsy created_raw
  then JStr (clock w (clock_reads w))
  else default JNull created_raw.

(** ** Further vocabulary *)

(** The value of the last pair of [params] whose key is [key]. *)
Definition last_value (key : string) (params : list (string * string))
  : option string :=
  snd <$> last (List.filter (λ kv, String.eqb kv.1 key) params).

(** The entries of [l], each once, in the order in which they first
    occur: [first_occurrences ["SE"; "DK"; "SE"; "NO"] = ["SE"; "DK"; "NO"]]. *)
Fixpoint first_occurrences (l : list string) : list string :=
  match l with
  | [] => []
  | c :: rest =>
      c :: List.filter (λ x, negb (String.eqb x c)) (first_occurrences rest)
  end.

(** The entries of [nw] that [old] does not have. *)
Definition not_among (old nw : list string) : list string :=
  List.filter (λ c, negb (existsb (String.eqb c) old)) nw.

Fixpoint count_char (c : ascii) (s : string) : nat :=
  match s with
  | EmptyString => 0
  | String d s' => (if Ascii.eqb d c then 1 else 0) + count_char c s'
  end.

(** The character classes of [r] do not tell [c] from [f c]. *)
Fixpoint class_invariant (f : ascii → ascii) (r : regex) : Prop :=
  match r with
  | Void | Eps => True
  | Class p => ∀ c, p (f c) = p c
  | Cat r1 r2 | Alt r1 r2 => class_invariant f r1 ∧ class_invariant f r2
  | Star r1 => class_invariant f r1
  end.

(** A listing read back as a configuration. *)
Definition as_config (entries : list CountryEntry) : list Countries.Country :=
  map (λ e, Countries.mkCountry (entry_code e) (entry_name e)
              (Some (JBool (entry_enabled e))))
    entries.

(** ** web/script.js

    The page is represented by the parts of it that the script reads
    and writes.  A class list is a set of class names.  [handleSubmit]
    is split where it awaits the answer of [fetch]: what runs before,
    and what runs once the answer is there. *)

Module Client.

Record Checkbox := mkCheckbox {
  value : string;
  checked : bool
}.

Record Page := mkPage {
  (** [elements.emailInput.value] and [.classList] *)
  email_value : string;
  email_classes : gset string;
  (** [elements.emailError.textContent] *)
  email_error : string;
  (** [elements.countriesError.textContent] *)
  countries_error : string;
  (** the [input[type="checkbox"]] of [elements.countriesContainer], in
      document order *)
  checkboxes : list Checkbox;
  (** the value of [#bot-field], when the element exists *)
  bot_field : option string;
  (** [elements.form.classList], [.successMessage.classList],
      [.errorMessage.classList] *)
  form_classes : gset string;
  success_classes : gset string;
  error_classes : gset string;
  (** [elements.errorDetails.textContent] *)
  error_details : string;
  (** [elements.submitBtn.disabled] *)
  submit_disabled : bool;
  (** [elements.btnText.classList], [elements.btnLoading.classList] *)
  btn_text_classes : gset string;
  btn_loading_classes : gset string
}.

Definition set_email_value (v : string) (p : Page) : Page :=
  mkPage v (email_classes p) (email_error p) (countries_error p) (checkboxes p)
    (bot_field p) (form_classes p) (success_classes p) (error_classes p)
    (error_details p) (submit_disabled p) (btn_text_classes p) (btn_loading_classes p).

Definition set_email_classes (v : gset string) (p : Page) : Page :=
  mkPage (email_value p) v (email_error p) (countries_error p) (checkboxes p)
    (bot_field p) (form_classes p) (success_classes p) (error_classes p)
    (error_details p) (submit_disabled p) (btn_text_classes p) (btn_loading_classes p).

Definition set_email_error (v : string) (p : Page) : Page :=
  mkPage (email_value p) (email_classes p) v (countries_error p) (checkboxes p)
    (bot_field p) (form_classes p) (success_classes p) (error_classes p)
    (error_details p) (submit_disabled p) (btn_text_classes p) (btn_loading_classes p).

Definition set_countries_error (v : string) (p : Page) : Page :=
  mkPage (email_value p) (email_classes p) (email_error p) v (checkboxes p)
    (bot_field p) (form_classes p) (success_classes p) (error_classes p)
    (error_details p) (submit_disabled p) (btn_text_classes p) (btn_loading_classes p).

Definition set_checkboxes (v : list Checkbox) (p : Page) : Page :=
  mkPage (email_value p) (email_classes p) (email_error p) (countries_error p) v
    (bot_field p) (form_classes p) (success_classes p) (error_classes p)
    (error_details p) (submit_disabled p) (btn_text_classes p) (btn_loading_classes p).

Definition set_form_classes (v : gset string) (p : Page) : Page :=
  mkPage (email_value p) (email_classes p) (email_error p) (countries_error p)
    (checkboxes p) (bot_field p) v (success_classes p) (error_classes p)
    (error_details p) (submit_disabled p) (btn_text_classes p) (btn_loading_classes p).

Definition set_success_classes (v : gset string) (p : Page) : Page :=
  mkPage (email_value p) (email_classes p) (email_error p) (countries_error p)
    (checkboxes p) (bot_field p) (form_classes p) v (error_classes p)
    (error_details p) (submit_disabled p) (btn_text_classes p) (btn_loading_classes p).

Definition set_error_classes (v : gset string) (p : Page) : Page :=
  mkPage (email_value p) (email_classes p) (email_error p) (countries_error p)
    (checkboxes p) (bot_field p) (form_classes p) (success_classes p) v
    (error_details p) (submit_disabled p) (btn_text_classes p) (btn_loading_classes p).

Definition set_error_details (v : string) (p : Page) : Page :=
  mkPage (email_value p) (email_classes p) (email_error p) (countries_error p)
    (checkboxes p) (bot_field p) (form_classes p) (success_classes p) (error_classes p)
    v (submit_disabled p) (btn_text_classes p) (btn_loading_classes p).

Definition set_submit_disabled (v : bool) (p : Page) : Page :=
  mkPage (email_value p) (email_classes p) (email_error p) (countries_error p)
    (checkboxes p) (bot_field p) (form_classes p) (success_classes p) (error_classes p)
    (error_details p) v (btn_text_classes p) (btn_loading_classes p).

Definition set_btn_text_classes (v : gset string) (p : Page) : Page :=
  mkPage (email_value p) (email_classes p) (email_error p) (countries_error p)
    (checkboxes p) (bot_field p) (form_classes p) (success_classes p) (error_classes p)
    (error_details p) (submit_disabled p) v (btn_loading_classes p).

Definition set_btn_loading_classes (v : gset string) (p : Page) : Page :=
  mkPage (email_value p) (email_classes p) (email_error p) (countries_error p)
    (checkboxes p) (bot_field p) (form_classes p) (success_classes p) (error_classes p)
    (error_details p) (submit_disabled p) (btn_text_classes p) v.

(** [classList.add], [classList.remove], [classList.toggle(c, force)] *)
Definition class_add (c : string) (classes : gset string) : gset string :=
  {[ c ]} ∪ classes.
Definition class_remove (c : string) (classes : gset string) : gset string :=
  classes ∖ {[ c ]}.
Definition class_toggle (c : string) (force : bool) (classes : gset string)
  : gset string :=
  if force then class_add c classes else class_remove c classes.

(** [CONFIG.minCountries] *)
Definition minCountries : nat := 1.

(** [/^[^\s@]+@[^\s@]+\.[^\s@]+$/], as written in [validateEmail] *)
Definition emailRegex : regex :=
  Cat (Plus (Class (λ c, negb (is_space c) && negb (Ascii.eqb c "@"))))
    (Cat (Lit "@")
       (Cat (Plus (Class (λ c, negb (is_space c) && negb (Ascii.eqb c "@"))))
          (Cat (Lit ".")
             (Plus (Class (λ c, negb (is_space c) && negb (Ascii.eqb c "@"))))))).

Definition showEmailError (message : string) (p : Page) : Page :=
  set_email_classes (class_add "invalid" (email_classes p))
    (set_email_error message p).

Definition clearEmailError (p : Page) : Page :=
  set_email_classes (class_remove "invalid" (email_classes p))
    (set_email_error EmptyString p).

Definition validateEmail (p : Page) : bool * Page :=
  let email := trim (email_value p) in
  if is_empty email then
    (false, showEmailError "Email address is required" p)
  else if negb (test emailRegex email) then
    (false, showEmailError "Please enter a valid email address" p)
  else (true, clearEmailError p).

Definition getSelectedCountries (p : Page) : list string :=
  map value (List.filter checked (checkboxes p)).

Definition validateCountries (p : Page) : bool * Page :=
  let selected := getSelectedCountries p in
  if (length selected <? minCountries)%nat then
    (false, set_countries_error "Please select at least one country" p)
  else (true, set_countries_error EmptyString p).

Definition handleCountryChange (p : Page) : Page :=
  if (minCountries <=? length (getSelectedCountries p))%nat
  then set_countries_error EmptyString p
  else p.

Definition setAllCountries (selected : bool) (p : Page) : Page :=
  let p1 :=
    set_checkboxes (map (λ cb, mkCheckbox (value cb) selected) (checkboxes p)) p in
  if selected then set_countries_error EmptyString p1 else p1.

Definition setSubmitLoading (loading : bool) (p : Page) : Page :=
  set_btn_loading_classes
    (class_toggle "hidden" (negb loading) (btn_loading_classes p))
    (set_btn_text_classes (class_toggle "hidden" loading (btn_text_classes p))
       (set_submit_disabled loading p)).

Definition showSuccess (p : Page) : Page :=
  let p1 := set_form_classes (class_add "hidden" (form_classes p)) p in
  let p2 := set_error_classes (class_add "hidden" (error_classes p1)) p1 in
  set_success_classes (class_remove "hidden" (success_classes p2)) p2.

Definition showError (message : string) (p : Page) : Page :=
  let p1 := set_form_classes (class_add "hidden" (form_classes p)) p in
  let p2 := set_success_classes (class_add "hidden" (success_classes p1)) p1 in
  let p3 := set_error_details message p2 in
  set_error_classes (class_remove "hidden" (error_classes p3)) p3.

(** The request handed to [fetch]; [payload] is the object given to
    [JSON.stringify]. *)
Record Request := mkRequest {
  url : string;
  method : string;
  request_headers : list (string * string);
  payload : jsval
}.

(** How [handleSubmit] stands when it returns or first awaits. *)
Inductive Submission : Type :=
| NotSent (p : Page)
| Sent (request : Request) (p : Page).

(** What [fetch] comes back with: a rejection with an error message, or
    a response with [ok], [status] and the outcome of [response.json()]
    ([None] when it rejects). *)
Inductive Reply : Type :=
| NetworkError (message : string)
| Answer (ok : bool) (status : Z) (json : option jsval).

(** [handleSubmit] up to the call of [fetch]; [time] is
    [new Date().toISOString()]. *)
Definition handleSubmit_before (time : string) (p : Page) : Submission :=
  if match bot_field p with Some v => negb (is_empty v) | None => false end then
    NotSent (showSuccess p)
  else
    let (isEmailValid, p1) := validateEmail p in
    let (isCountriesValid, p2) := validateCountries p1 in
    if negb isEmailValid || negb isCountriesValid then NotSent p2
    else
      let selectedCountries := getSelectedCountries p2 in
      let p3 := setSubmitLoading true p2 in
      Sent (mkRequest "/.netlify/functions/subscribe" "POST"
              [("Content-Type", "application/json")]
              (JObj [("email", JStr (trim (email_value p3)));
                     ("countries", JArr (map JStr selectedCountries));
                     ("created_at", JStr time)]))
           p3.

Section Browser.

(** [elements.form.reset()] *)
Variable form_reset : Page → Page.
(** [String(v)] for a value that is not a string *)
Variable ToString : jsval → string.
(** the message of the [TypeError] raised by reading a property of
    [null] *)
Variable null_member_message : string.

(** [new Error(v).message] *)
Definition error_message (v : jsval) : string :=
  match v with
  | JStr s => s
  | _ => ToString v
  end.

(** [error.message || 'Failed to submit. Please try again.'] *)
Definition shown_message (message : string) : string :=
  if is_empty message then "Failed to submit. Please try again." else message.

(** [handleSubmit] from the answer of [fetch] on. *)
Definition handleSubmit_after (reply : Reply) (p : Page) : Page :=
  setSubmitLoading false
    match reply with
    | NetworkError message => showError (shown_message message) p
    | Answer ok status json =>
        let result := default (JObj []) json in
        if ok then showSuccess p
        else
          match member result "error" with
          | Thrown => showError (shown_message null_member_message) p
          | Normal err =>
              let thrown :=
                if falsy err
                then JStr ("Submission failed: " +:+ ToString (JNum status))
                else default JNull err in
              showError (shown_message (error_message thrown)) p
          end
    end.

Definition resetForm (p : Page) : Page :=
  let p1 := form_reset p in
  let p2 := set_form_classes (class_remove "hidden" (form_classes p1)) p1 in
  let p3 := set_success_classes (class_add "hidden" (success_classes p2)) p2 in
  let p4 := set_error_classes (class_add "hidden" (error_classes p3)) p3 in
  let p5 := clearEmailError p4 in
  let p6 := set_countries_error EmptyString p5 in
  setAllCountries false p6.

(** The listeners of [setupEventListeners], with what the browser does
    to the page before it calls them: typing replaces the value of the
    email input, clicking a checkbox flips it. *)
Inductive Event : Type :=
| Submit (time : string)
| Replied (reply : Reply)
| EmailBlur
| EmailInput (typed : string)
| CountryChange (index : nat)
| SelectAll
| SelectNone
| SubscribeAnother
| TryAgain.

Definition flip_checkbox (index : nat) (p : Page) : Page :=
  match checkboxes p !! index with
  | Some cb =>
      set_checkboxes
        (<[index := mkCheckbox (value cb) (negb (checked cb))]> (checkboxes p)) p
  | None => p
  end.

(** The page and the requests sent so far. *)
Definition Session : Type := Page * list Request.

Definition step (e : Event) (s : Session) : Session :=
  let (p, sent) := s in
  match e with
  | Submit time =>
      match handleSubmit_before time p with
      | NotSent p' => (p', sent)
      | Sent request p' => (p', sent ++ [request])
      end
  | Replied reply => (handleSubmit_after reply p, sent)
  | EmailBlur => ((validateEmail p).2, sent)
  | EmailInput typed => (clearEmailError (set_email_value typed p), sent)
  | CountryChange index => (handleCountryChange (flip_checkbox index p), sent)
  | SelectAll => (setAllCountries true p, sent)
  | SelectNone => (setAllCountries false p, sent)
  | SubscribeAnother | TryAgain => (resetForm p, sent)
  end.

Definition run (events : list Event) (s : Session) : Session :=
  fold_left (λ s e, step e s) events s.

(** [a.name.localeCompare(b.name)] *)
Variable localeCompare : string → string → Z.

(** The [countries] that [loadCountries] keeps from the array
    [data.countries]. *)
Definition loadCountries_list (data : list Countries.Country)
  : list Countries.Country :=
  Array_sort (λ a b, localeCompare (Countries.name a) (Countries.name b))
    (List.filter Countries.not_disabled data).

End Browser.

(** A panel is shown when its class list lacks [hidden]. *)
Definition shown (classes : gset string) : Prop := "hidden" ∉ classes.

(** Exactly one of the form, the success message and the error message
    is shown. *)
Definition one_panel (p : Page) : Prop :=
  (shown (form_classes p) ∧ ¬ shown (success_classes p) ∧ ¬ shown (error_classes p))
  ∨ (¬ shown (form_classes p) ∧ shown (success_classes p) ∧ ¬ shown (error_classes p))
  ∨ (¬ shown (form_classes p) ∧ ¬ shown (success_classes p) ∧ shown (error_classes p)).

End Client.

(** ** Further sample inputs *)

Module Demo.

Definition q : string := Sample.quote.

(** The text [{"email":"a@b.co","countries":[5]}]. *)
Definition number_array_text : string :=
  "{" +:+ q +:+ "email" +:+ q +:+ ":" +:+ q +:+ "a@b.co" +:+ q +:+ ","
  +:+ q +:+ "countries" +:+ q +:+ ":[5]}".

(** The text [{"email":"a@b.co","countries":["no"," se"]}]. *)
Definition string_array_text : string :=
  "{" +:+ q +:+ "email" +:+ q +:+ ":" +:+ q +:+ "a@b.co" +:+ q +:+ ","
  +:+ q +:+ "countries" +:+ q +:+ ":[" +:+ q +:+ "no" +:+ q +:+ ","
  +:+ q +:+ " se" +:+ q +:+ "]}".

(** The text
    [{"email":"Ann@Example.com","countries":["no","se"],"created_at":"2024-01-01T00:00:00.000Z"}]. *)
Definition payload_text : string :=
  "{" +:+ q +:+ "email" +:+ q +:+ ":" +:+ q +:+ "Ann@Example.com" +:+ q +:+ ","
  +:+ q +:+ "countries" +:+ q +:+ ":[" +:+ q +:+ "no" +:+ q +:+ ","
  +:+ q +:+ "se" +:+ q +:+ "],"
  +:+ q +:+ "created_at" +:+ q +:+ ":" +:+ q +:+ "2024-01-01T00:00:00.000Z"
  +:+ q +:+ "}".

(** The text [{"email":5,"countries":["NO"]}]. *)
Definition number_email_text : string :=
  "{" +:+ q +:+ "email" +:+ q +:+ ":5,"
  +:+ q +:+ "countries" +:+ q +:+ ":[" +:+ q +:+ "NO" +:+ q +:+ "]}".

(** [JSON.parse] on the texts the examples use; any other text is taken
    as one it rejects. *)
Definition JSON_parse (text : string) : option jsval :=
  if String.eqb text number_array_text then
    Some (JObj [("email", JStr "a@b.co"); ("countries", JArr [JNum 5])])
  else if String.eqb text string_array_text then
    Some (JObj [("email", JStr "a@b.co");
                ("countries", JArr [JStr "no"; JStr " se"])])
  else if String.eqb text payload_text then
    Some (JObj [("email", JStr "Ann@Example.com");
                ("countries", JArr [JStr "no"; JStr "se"]);
                ("created_at", JStr "2024-01-01T00:00:00.000Z")])
  else if String.eqb text number_email_text then
    Some (JObj [("email", JNum 5); ("countries", JArr [JStr "NO"])])
  else if String.eqb text "5" then Some (JNum 5)
  else None.

(** [URLSearchParams] on the texts the examples use; any other text is
    taken as one without parameters. *)
Definition URLSearchParams (text : string) : list (string * string) :=
  if String.eqb text "email=a%40b.co&countries=5" then
    [("email", "a@b.co"); ("countries", "5")]
  else if String.eqb text "email=a%40b.co&countries=+%2C+" then
    [("email", "a@b.co"); ("countries", " , ")]
  else if String.eqb text "countries=NO&email=a%40b.co&countries=SE" then
    [("countries", "NO"); ("email", "a@b.co"); ("countries", "SE")]
  else if String.eqb text "email=+Ann%40Example.com+&countries=NO" then
    [("email", " Ann@Example.com "); ("countries", "NO")]
  else if String.eqb text "email=+Ann%40Example+&countries=NO" then
    [("email", " Ann@Example "); ("countries", "NO")]
  else [].

Definition json_headers : gmap string string :=
  {[ "content-type" := "application/json" ]}.

Definition json_post (text : string) : Subscribe.Event :=
  Subscribe.mkEvent "POST" json_headers (Some text).

Definition form_post (text : string) : Subscribe.Event :=
  Subscribe.mkEvent "POST" Sample.form_headers (Some text).

(** A third subscription of [Sample.ann], with a repeated country. *)
Definition ann_more : Subscriber :=
  mkSubscriber "ANN@example.com"
    (JArr [JStr "SE"; JStr "FI"; JStr "DK"; JStr "FI"])
    (JStr "2024-01-02T00:00:00.000Z") None true.

(** [Sample.config] with its first two entries exchanged. *)
Definition config_swapped : list Countries.Country :=
  [ Countries.mkCountry "XX" "Atlantis" (Some (JBool false));
    Countries.mkCountry "SE" "Sweden" (Some (JBool true));
    Countries.mkCountry "NO" "Norway" None;
    Countries.mkCountry "DE" "Germany" (Some (JBool true)) ].

(** A page in which the form is shown, an email is typed and two of
    three countries are checked. *)
Definition page : Client.Page :=
  Client.mkPage " Ann@Example.com " ∅ EmptyString EmptyString
    [ Client.mkCheckbox "no" true; Client.mkCheckbox "dk" false;
      Client.mkCheckbox "se" true ]
    (Some EmptyString) ∅ {[ "hidden" ]} {[ "hidden" ]} EmptyString false
    ∅ {[ "hidden" ]}.

(** The same page, filled in by a robot. *)
Definition robot_page : Client.Page :=
  Client.mkPage "spam" ∅ EmptyString EmptyString [] (Some "http://spam.example")
    ∅ {[ "hidden" ]} {[ "hidden" ]} EmptyString false ∅ {[ "hidden" ]}.

(** [form.reset()] on a form whose controls start empty and unchecked. *)
Definition form_reset (p : Client.Page) : Client.Page :=
  Client.set_email_value EmptyString
    (Client.set_checkboxes
       (map (λ cb, Client.mkCheckbox (Client.value cb) false) (Client.checkboxes p))
       p).

(** [String(v)] on the values the examples use. *)
Definition ToString (v : jsval) : string :=
  match v with
  | JNum 500 => "500"
  | JNum 400 => "400"
  | _ => EmptyString
  end.

Definition null_member_message : string :=
  "Cannot read properties of null (reading 'error')".

Definition time : string := "2024-01-01T00:00:00.000Z".

Definition events : list Client.Event :=
  [ Client.EmailInput "ann@example"; Client.EmailBlur; Client.Submit time;
    Client.EmailInput "ann@example.com"; Client.CountryChange 1; Client.Submit time;
    Client.Replied (Client.Answer false 500
                      (Some (JObj [("error", JStr "Failed to save subscription")])));
    Client.TryAgain; Client.SelectAll; Client.Submit time;
    Client.Replied (Client.Answer true 200 None) ].

End Demo.

(** * Properties *)

(** ** Strings *)

Section StringFacts.

Lemma app_eq_empty (s1 s2 : string) :
  s1 +:+ s2 = EmptyString → s1 = EmptyString ∧ s2 = EmptyString.
Proof. destruct s1; [done|]. intros H. discriminate H. Qed.

Lemma app_eq_cons (s1 s2 s : string) (c : ascii) :
  s1 +:+ s2 = String c s →
  (s1 = EmptyString ∧ s2 = String c s) ∨ (∃ s1', s1 = String c s1' ∧ s = s1' +:+ s2).
Proof.
  destruct s1 as [|d s1]; [by left|].
  intros H. change (String d (s1 +:+ s2) = String c s) in H.
  injection H as -> <-. right. by exists s1.
Qed.

Lemma all_chars_app (p : ascii → bool) (s1 s2 : string) :
  all_chars p (s1 +:+ s2) = all_chars p s1 && all_chars p s2.
Proof.
  induction s1 as [|c s1 IH]; [done|].
  change (p c && all_chars p (s1 +:+ s2) = p c && all_chars p s1 && all_chars p s2).
  rewrite IH. by destruct (p c).
Qed.

Lemma mem_char_app (c : ascii) (s1 s2 : string) :
  mem_char c (s1 +:+ s2) = mem_char c s1 || mem_char c s2.
Proof.
  induction s1 as [|d s1 IH]; [done|].
  change (Ascii.eqb d c || mem_char c (s1 +:+ s2)
          = Ascii.eqb d c || mem_char c s1 || mem_char c s2).
  rewrite IH. by destruct (Ascii.eqb d c).
Qed.

End StringFacts.

(** ** The matcher decides the language of a regular expression *)

Section RegexFacts.

Lemma nullable_lang (r : regex) : nullable r = true ↔ lang r EmptyString.
Proof.
  split.
  - induction r as [| |p|r1 IH1 r2 IH2|r1 IH1 r2 IH2|r IH]; simpl; intros H;
      try discriminate.
    + constructor.
    + apply andb_true_iff in H as [H1 H2].
      change (lang (Cat r1 r2) ("" +:+ "")). constructor; auto.
    + apply orb_true_iff in H as [H|H];
        [apply lang_alt_l | apply lang_alt_r]; auto.
    + constructor.
  - intros H. remember EmptyString as s eqn:Es.
    induction H as [|p c Hp|r1 r2 s1 s2 H1 IH1 H2 IH2|r1 r2 s H IH|r1 r2 s H IH
                   |r|r s1 s2 H1 IH1 H2 IH2]; simpl; try done.
    + apply app_eq_empty in Es as [-> ->]. by rewrite IH1, IH2.
    + by rewrite IH.
    + rewrite IH by done. by destruct (nullable r1).
Qed.

Lemma deriv_sound (c : ascii) (r : regex) (s : string) :
  lang (deriv c r) s → lang r (String c s).
Proof.
  revert s.
  induction r as [| |p|r1 IH1 r2 IH2|r1 IH1 r2 IH2|r IH]; simpl; intros s H.
  - inversion H.
  - inversion H.
  - destruct (p c) eqn:Hp; inversion H; subst. by constructor.
  - destruct (nullable r1) eqn:Hn.
    + inversion H as [| | |? ? ? H'|? ? ? H'| |]; subst.
      * inversion H' as [| |? ? s1 s2 Ha Hb| | | |]; subst.
        change (lang (Cat r1 r2) (String c s1 +:+ s2)). constructor; auto.
      * change (lang (Cat r1 r2) ("" +:+ String c s)).
        constructor; [by apply nullable_lang | auto].
    + inversion H as [| |? ? s1 s2 Ha Hb| | | |]; subst.
      change (lang (Cat r1 r2) (String c s1 +:+ s2)). constructor; auto.
  - inversion H; subst; [apply lang_alt_l | apply lang_alt_r]; auto.
  - inversion H as [| |? ? s1 s2 Ha Hb| | | |]; subst.
    change (lang (Star r) (String c s1 +:+ s2)). constructor; auto.
Qed.

Lemma deriv_complete (c : ascii) (r : regex) (s : string) :
  lang r (String c s) → lang (deriv c r) s.
Proof.
  intros H. remember (String c s) as t eqn:Et. revert s Et.
  induction H as [|p d Hp|r1 r2 s1 s2 H1 IH1 H2 IH2|r1 r2 t H IH|r1 r2 t H IH
                 |r|r s1 s2 H1 IH1 H2 IH2]; intros s Et; simpl.
  - discriminate.
  - injection Et as -> <-. rewrite Hp. constructor.
  - apply app_eq_cons in Et as [[-> ->]|(s1' & -> & ->)].
    + apply nullable_lang in H1. rewrite H1. apply lang_alt_r. auto.
    + destruct (nullable r1); [apply lang_alt_l|]; constructor; auto.
  - apply lang_alt_l; auto.
  - apply lang_alt_r; auto.
  - discriminate.
  - apply app_eq_cons in Et as [[-> ->]|(s1' & -> & ->)].
    + by apply IH2.
    + constructor; auto.
Qed.

Lemma test_lang (r : regex) (s : string) : test r s = true ↔ lang r s.
Proof.
  revert r. induction s as [|c s IH]; intros r; simpl.
  - apply nullable_lang.
  - rewrite IH. split; [apply deriv_sound | apply deriv_complete].
Qed.

Lemma lang_star_class (p : ascii → bool) (s : string) :
  lang (Star (Class p)) s ↔ all_chars p s = true.
Proof.
  split.
  - intros H. remember (Star (Class p)) as r eqn:Er.
    induction H as [| | | | | |r s1 s2 H1 IH1 H2 IH2]; try discriminate; [done|].
    injection Er as ->. inversion H1; subst.
    rewrite all_chars_app. simpl. rewrite IH2 by done. by rewrite H0.
  - induction s as [|c s IH]; simpl; intros H; [constructor|].
    apply andb_true_iff in H as [Hc Hs].
    change (lang (Star (Class p)) (String c "" +:+ s)).
    constructor; [by constructor | auto].
Qed.

Lemma lang_plus_class (p : ascii → bool) (s : string) :
  lang (Plus (Class p)) s ↔ s ≠ EmptyString ∧ all_chars p s = true.
Proof.
  unfold Plus. split.
  - intros H. inversion H as [| |? ? s1 s2 H1 H2| | | |]; subst.
    inversion H1; subst. apply lang_star_class in H2.
    split; [done|]. rewrite all_chars_app. simpl. by rewrite H2, H3.
  - intros [Hne H]. destruct s as [|c s]; [done|].
    simpl in H. apply andb_true_iff in H as [Hc Hs].
    change (lang (Cat (Class p) (Star (Class p))) (String c "" +:+ s)).
    constructor; [by constructor | by apply lang_star_class].
Qed.

Lemma lang_lit (c : ascii) (s : string) :
  lang (Lit c) s ↔ s = String c EmptyString.
Proof.
  unfold Lit. split.
  - intros H. inversion H; subst. by apply Ascii.eqb_eq in H1 as ->.
  - intros ->. constructor. apply Ascii.eqb_refl.
Qed.

End RegexFacts.

(** ** isValidEmail *)

Section EmailFacts.

Lemma lang_cat_inv (r1 r2 : regex) (s : string) :
  lang (Cat r1 r2) s ↔ ∃ s1 s2, s = s1 +:+ s2 ∧ lang r1 s1 ∧ lang r2 s2.
Proof.
  split.
  - intros H. inversion H; subst. eauto.
  - intros (s1 & s2 & -> & H1 & H2). by constructor.
Qed.

Lemma emailRegex_lang (s : string) : lang Subscribe.emailRegex s ↔ email_pattern s.
Proof.
  unfold Subscribe.emailRegex, email_pattern, email_part. split.
  - intros H.
    apply lang_cat_inv in H as (l & s1 & -> & Hl & H).
    apply lang_cat_inv in H as (a & s2 & -> & Ha & H).
    apply lang_cat_inv in H as (d & s3 & -> & Hd & H).
    apply lang_cat_inv in H as (o & t & -> & Ho & Ht).
    apply lang_lit in Ha as ->. apply lang_lit in Ho as ->.
    apply lang_plus_class in Hl, Hd, Ht. by exists l, d, t.
  - intros (l & d & t & -> & Hl & Hd & Ht).
    apply lang_plus_class in Hl, Hd, Ht.
    repeat (apply lang_cat; [first [done | by apply lang_lit] |]). done.
Qed.

Lemma isValidEmail_pattern (s : string) :
  Subscribe.isValidEmail (Some (JStr s)) = true ↔ email_pattern s.
Proof.
  unfold Subscribe.isValidEmail. rewrite <- emailRegex_lang, <- test_lang.
  destruct s as [|c s]; [by vm_compute | done].
Qed.

Lemma part_no_at (s : string) :
  all_chars Subscribe.not_space_or_at s = true → mem_char "@" s = false.
Proof.
  induction s as [|c s IH]; simpl; [done|].
  intros [Hc Hs]%andb_true_iff. rewrite IH by done.
  unfold Subscribe.not_space_or_at in Hc.
  apply andb_true_iff in Hc as [_ Hc]. by destruct (Ascii.eqb c "@").
Qed.

Lemma split_at_unique (l x pre post : string) :
  mem_char "@" l = false → mem_char "@" x = false →
  l +:+ "@" +:+ x = pre +:+ "@" +:+ post → pre = l ∧ post = x.
Proof.
  revert pre. induction l as [|c l IH]; intros pre Hl Hx E.
  - destruct pre as [|c' pre].
    + change (String "@" x = String "@" post) in E. by injection E as ->.
    + change (String "@" x = String c' (pre +:+ "@" +:+ post)) in E.
      injection E as <- ->. rewrite mem_char_app in Hx. simpl in Hx.
      by rewrite orb_true_r in Hx.
  - simpl in Hl. apply orb_false_iff in Hl as [Hc Hl].
    destruct pre as [|c' pre].
    + change (String c (l +:+ "@" +:+ x) = String "@" post) in E.
      injection E as -> _. by rewrite Ascii.eqb_refl in Hc.
    + change (String c (l +:+ "@" +:+ x) = String c' (pre +:+ "@" +:+ post)) in E.
      injection E as <- E. destruct (IH pre Hl Hx E) as [-> ->]. done.
Qed.

Lemma pattern_has_at (s : string) : email_pattern s → mem_char "@" s = true.
Proof.
  intros (l & d & t & -> & _). rewrite mem_char_app. simpl.
  by rewrite orb_true_r.
Qed.

Lemma pattern_dot_after_at (pre post : string) :
  email_pattern (pre +:+ "@" +:+ post) → mem_char "." post = true.
Proof.
  intros (l & d & t & E & [_ Hl] & [_ Hd] & [_ Ht]).
  symmetry in E. apply split_at_unique in E as [_ ->].
  - rewrite mem_char_app. simpl. by rewrite orb_true_r.
  - by apply part_no_at.
  - rewrite mem_char_app. simpl. by rewrite !part_no_at.
Qed.

End EmailFacts.

(** ** saveSubscriber, case by case *)

Section StoreFacts.
Import Subscribe.

Lemma findIndex_none {A} (p : A → bool) (l : list A) :
  findIndex p l < 0 ↔ Forall (λ x, p x = false) l.
Proof.
  induction l as [|x l IH]; simpl.
  - split; [constructor | lia].
  - destruct (p x) eqn:Hp.
    + split; [lia|]. intros H. inversion H; congruence.
    + destruct (Z.ltb_spec (findIndex p l) 0) as [Hlt|Hge].
      * split; [|lia]. intros _. constructor; [done|]. by apply IH.
      * split; [lia|]. intros H. inversion H; subst. apply IH in H3. lia.
Qed.


Lemma findIndex_some {A} (p : A → bool) (l : list A) :
  0 ≤ findIndex p l →
  ∃ x, l !! Z.to_nat (findIndex p l) = Some x ∧ p x = true
       ∧ Forall (λ y, p y = false) (take (Z.to_nat (findIndex p l)) l).
Proof.
  induction l as [|x l IH]; simpl; [lia|].
  destruct (p x) eqn:Hp.
  - intros _. exists x. simpl. repeat split; [done|constructor].
  - destruct (Z.ltb_spec (findIndex p l) 0) as [Hlt|Hge]; [lia|].
    intros _. destruct (IH Hge) as (y & Hy & Hpy & Hbefore).
    exists y. replace (Z.to_nat (findIndex p l + 1)) with (S (Z.to_nat (findIndex p l))) by lia.
    simpl. repeat split; [done..|]. by constructor.
Qed.

Lemma joinable_is_array (v : jsval) : joinable v = true → is_array v = true.
Proof. by destruct v. Qed.

Lemma not_array_not_joinable (v : jsval) :
  is_array v = false → joinable v = false.
Proof. by destruct v. Qed.

Lemma joinable_strings (l : list string) : joinable (JArr (map JStr l)) = true.
Proof. simpl. by induction l. Qed.

Lemma save_insert (new : Subscriber) (w : World) (d : Document) :
  loaded w = Some d →
  findIndex (same_email new) (subscribers d) < 0 →
  saveSubscriber new w
  = (Normal (joinable (countries new)),
     written w (mkDocument (subscribers d ++ [new])
                  (Some (clock w (clock_reads w))) (version d)) 1).
Proof.
  destruct w as [dk cl n]. unfold loaded, written. simpl.
  intros Hd Hidx.
  unfold saveSubscriber, try_catch, mbind, JS_bind, file_exists, read_document,
    directory_exists, mkdir, write_document, now, set_disk, lift, mret, JS_ret.
  unfold join_countries.
  destruct dk as [| |[raw|data]]; simplify_eq/=;
    try (by destruct (joinable (countries new))).
  destruct (Z.leb_spec 0 (findIndex (same_email new) (subscribers d))); [lia|].
  simpl. by destruct (joinable (countries new)).
Qed.

Lemma save_merge (new existing : Subscriber) (w : World) (d : Document)
    (i : nat) (old nw : list jsval) :
  loaded w = Some d →
  findIndex (same_email new) (subscribers d) = Z.of_nat i →
  subscribers d !! i = Some existing →
  spread (countries existing) = Normal old →
  spread (countries new) = Normal nw →
  saveSubscriber new w
  = (Normal (joinable (countries new)),
     written w
       (mkDocument
          (<[i := mkSubscriber (email existing) (JArr (new_Set (old ++ nw)))
                    (created_at existing) (Some (clock w (clock_reads w))) true]>
             (subscribers d))
          (Some (clock w (S (clock_reads w)))) (version d)) 2).
Proof.
  destruct w as [dk cl n]. unfold loaded, written. simpl.
  intros Hd Hidx Hex Hold Hnw.
  unfold saveSubscriber, merge_into, try_catch, mbind, JS_bind, file_exists,
    read_document, directory_exists, mkdir, write_document, now, set_disk,
    lift, mret, JS_ret.
  unfold join_countries.
  destruct dk as [| |[raw|data]]; simplify_eq/=.
  rewrite Hidx. destruct (Z.leb_spec 0 (Z.of_nat i)); [|lia].
  rewrite Nat2Z.id, Hex, Hold, Hnw. simpl.
  by destruct (joinable (countries new)).
Qed.

Lemma save_unparseable (new : Subscriber) (w : World) (raw : string) :
  disk w = File (Unparseable raw) → saveSubscriber new w = (Normal false, w).
Proof.
  destruct w as [dk cl n]. simpl. intros ->.
  reflexivity.
Qed.

Lemma save_not_iterable (new existing : Subscriber) (w : World) (d : Document)
    (i : nat) :
  loaded w = Some d →
  findIndex (same_email new) (subscribers d) = Z.of_nat i →
  subscribers d !! i = Some existing →
  spread (countries existing) = Thrown ∨ spread (countries new) = Thrown →
  saveSubscriber new w = (Normal false, w).
Proof.
  destruct w as [dk cl n]. unfold loaded. simpl.
  intros Hd Hidx Hex Hthrow.
  unfold saveSubscriber, merge_into, try_catch, mbind, JS_bind, file_exists,
    read_document, directory_exists, mkdir, write_document, now, set_disk,
    lift, mret, JS_ret.
  destruct dk as [| |[raw|data]]; simplify_eq/=.
  rewrite Hidx. destruct (Z.leb_spec 0 (Z.of_nat i)); [|lia].
  rewrite Nat2Z.id, Hex. simpl.
  destruct Hthrow as [-> | Hn]; [done|].
  rewrite Hn. by destruct (spread (countries existing)).
Qed.

Lemma findIndex_app_last {A} (p : A → bool) (l : list A) (x : A) :
  Forall (λ y, p y = false) l → p x = true →
  findIndex p (l ++ [x]) = Z.of_nat (length l).
Proof.
  intros Hl Hx. induction Hl as [|y l Hy Hl IH]; simpl.
  - by rewrite Hx.
  - rewrite Hy, IH. destruct (Z.ltb_spec (Z.of_nat (length l)) 0); lia.
Qed.

(** A save that reports success inserted or merged. *)
Lemma save_true_inv (new : Subscriber) (w w' : World) :
  saveSubscriber new w = (Normal true, w') →
  ∃ d, loaded w = Some d ∧
    ( (Forall (λ s, same_email new s = false) (subscribers d)
       ∧ w' = written w (mkDocument (subscribers d ++ [new])
                           (Some (clock w (clock_reads w))) (version d)) 1)
    ∨ (∃ i existing old nw,
         subscribers d !! i = Some existing
         ∧ same_email new existing = true
         ∧ Forall (λ s, same_email new s = false) (take i (subscribers d))
         ∧ spread (countries existing) = Normal old
         ∧ spread (countries new) = Normal nw
         ∧ w' = written w
             (mkDocument
                (<[i := mkSubscriber (email existing) (JArr (new_Set (old ++ nw)))
                          (created_at existing)
                          (Some (clock w (clock_reads w))) true]>
                   (subscribers d))
                (Some (clock w (S (clock_reads w)))) (version d)) 2) ).
Proof.
  intros Hsave.
  destruct (loaded w) as [d|] eqn:Hd.
  2:{ unfold loaded in Hd. destruct (disk w) as [| |[raw|data]] eqn:Hdisk; try done.
      rewrite (save_unparseable new w raw Hdisk) in Hsave. done. }
  exists d. split; [done|].
  destruct (Z.lt_ge_cases (findIndex (same_email new) (subscribers d)) 0) as [Hlt|Hge].
  - left. rewrite (save_insert new w d Hd Hlt) in Hsave.
    split; [by apply findIndex_none | congruence].
  - right. destruct (findIndex_some _ _ Hge) as (existing & Hex & Hp & Hbefore).
    set (i := Z.to_nat (findIndex (same_email new) (subscribers d))) in *.
    assert (Hi : findIndex (same_email new) (subscribers d) = Z.of_nat i) by lia.
    destruct (spread (countries existing)) as [old|] eqn:Hold.
    2:{ rewrite (save_not_iterable new existing w d i) in Hsave; auto. done. }
    destruct (spread (countries new)) as [nw|] eqn:Hnw.
    2:{ rewrite (save_not_iterable new existing w d i) in Hsave; auto. done. }
    rewrite (save_merge new existing w d i old nw) in Hsave by done.
    exists i, existing, old, nw. repeat split; try done. congruence.
Qed.

End StoreFacts.

(** ** The store: merge, uniqueness, frame *)

Section SaveProperties.
Import Subscribe.

Lemma existsb_sameValueZero_str (x : string) (acc : list string) :
  existsb (sameValueZero (JStr x)) (map JStr acc) = bool_decide (x ∈ acc).
Proof.
  induction acc as [|y acc IH]; simpl; [done|].
  rewrite IH. destruct (String.eqb_spec x y) as [->|Hne]; simpl.
  - symmetry. apply bool_decide_eq_true. left.
  - apply bool_decide_ext. rewrite elem_of_cons. tauto.
Qed.

Lemma new_Set_strings_from (xs acc : list string) :
  NoDup acc →
  ∃ cs, fold_left Set_add (map JStr xs) (map JStr acc) = map JStr cs
        ∧ NoDup cs ∧ ∀ c, c ∈ cs ↔ c ∈ acc ∨ c ∈ xs.
Proof.
  revert acc. induction xs as [|x xs IH]; intros acc Hacc; simpl.
  - exists acc. split; [done|]. split; [done|]. intros c. rewrite elem_of_nil. tauto.
  - unfold Set_add at 2. rewrite existsb_sameValueZero_str.
    destruct (bool_decide_reflect (x ∈ acc)) as [Hin|Hnin].
    + destruct (IH acc Hacc) as (cs & E & Hnd & Hcs).
      exists cs. split; [done|]. split; [done|]. intros c.
      rewrite Hcs, elem_of_cons. split; [tauto|]. intros [?|[->|?]]; auto.
    + change [JStr x] with (map JStr [x]). rewrite <- map_app.
      destruct (IH (acc ++ [x])) as (cs & E & Hnd & Hcs).
      { apply NoDup_app. split; [done|]. split; [|apply NoDup_singleton].
        intros y Hy ->%list_elem_of_singleton. done. }
      exists cs. split; [done|]. split; [done|]. intros c.
      rewrite Hcs, elem_of_app, list_elem_of_singleton, elem_of_cons. tauto.
Qed.

Lemma new_Set_strings (xs : list string) :
  ∃ cs, new_Set (map JStr xs) = map JStr cs ∧ NoDup cs ∧ ∀ c, c ∈ cs ↔ c ∈ xs.
Proof.
  destruct (new_Set_strings_from xs [] (NoDup_nil_2)) as (cs & E & Hnd & Hcs).
  exists cs. split; [done|]. split; [done|]. intros c. rewrite Hcs, elem_of_nil. tauto.
Qed.

Lemma records_for_none (new : Subscriber) (subs : list Subscriber) :
  Forall (λ s, same_email new s = false) subs ↔ records_for (email new) subs = [].
Proof.
  unfold records_for, same_email, lower_email.
  induction subs as [|s subs IH]; simpl; [split; [done|constructor]|].
  destruct (String.eqb _ _) eqn:E.
  - split; [|done]. intros H. inversion H; congruence.
  - rewrite <- IH. split; [by inversion 1 | by constructor].
Qed.

Lemma records_for_same (e1 e2 : string) (subs : list Subscriber) :
  toLowerCase e1 = toLowerCase e2 → records_for e1 subs = records_for e2 subs.
Proof. unfold records_for. by intros ->. Qed.

Lemma save_merge_first_match (new : Subscriber) (w : World) (d : Document)
    (nw : list jsval) :
  loaded w = Some d →
  Exists (λ s, same_email new s = true) (subscribers d) →
  Forall (λ s, is_array (countries s) = true) (subscribers d) →
  countries new = JArr nw →
  ∃ i existing old,
    subscribers d !! i = Some existing
    ∧ same_email new existing = true
    ∧ Forall (λ s, same_email new s = false) (take i (subscribers d))
    ∧ countries existing = JArr old
    ∧ saveSubscriber new w
      = (Normal (joinable (countries new)),
         written w
           (mkDocument
              (<[i := mkSubscriber (email existing) (JArr (new_Set (old ++ nw)))
                        (created_at existing)
                        (Some (clock w (clock_reads w))) true]>
                 (subscribers d))
              (Some (clock w (S (clock_reads w)))) (version d)) 2).
Proof.
  intros Hd Hex Harr Hnew.
  destruct (Z.lt_ge_cases (findIndex (same_email new) (subscribers d)) 0) as [Hlt|Hge].
  { apply findIndex_none in Hlt. apply Exists_exists in Hex as (s & Hs & Hm).
    rewrite Forall_forall in Hlt. specialize (Hlt s Hs). simpl in Hlt. congruence. }
  destruct (findIndex_some _ _ Hge) as (existing & Hlook & Hp & Hbefore).
  set (i := Z.to_nat (findIndex (same_email new) (subscribers d))) in *.
  assert (Hi : findIndex (same_email new) (subscribers d) = Z.of_nat i) by lia.
  pose proof (Forall_lookup_1 _ _ _ _ Harr Hlook) as Ha. simpl in Ha.
  destruct (countries existing) as [| | | |old|] eqn:Hc; try discriminate.
  exists i, existing, old. repeat split; try done.
  rewrite (save_merge new existing w d i old nw); try done.
  - by rewrite Hc.
  - by rewrite Hnew.
Qed.

(** C1. When the email of the new subscriber matches an existing record
    case-insensitively, [saveSubscriber] rewrites that record in place
    (its countries become those of a [Set] built from the old and the
    new ones, [active] becomes true) and the sequence keeps its length;
    the merge is on file whatever the call returns, and it returns true
    exactly when the new countries can be joined for the log line (an
    element that is an object with a [toString] entry of its own makes
    [join] throw after the file was written).  In particular, saving
    the same email with countries [A, B] and then [B, C] into a document that has no record for it leaves exactly one
    record for the email, active, whose countries are duplicate-free
    and are exactly A, B and C. *)
Theorem C1_save_merges_same_email :
  (∀ (w : World) (d : Document) (new : Subscriber) (nw : list jsval),
     loaded w = Some d →
     Exists (λ s, same_email new s = true) (subscribers d) →
     Forall (λ s, is_array (countries s) = true) (subscribers d) →
     countries new = JArr nw →
     ∃ i existing old t w',
       subscribers d !! i = Some existing
       ∧ same_email new existing = true
       ∧ countries existing = JArr old
       ∧ saveSubscriber new w = (Normal (joinable (countries new)), w')
       ∧ (subscribers <$> loaded w')
         = Some (<[i := mkSubscriber (email existing) (JArr (new_Set (old ++ nw)))
                          (created_at existing) (Some t) true]>
                   (subscribers d))
       ∧ (length <$> (subscribers <$> loaded w')) = Some (length (subscribers d)))
  ∧
  (∀ (w : World) (d : Document) (e1 e2 A B C : string)
     (c1 c2 : jsval) (u1 u2 : option string) (a1 a2 : bool),
     loaded w = Some d →
     toLowerCase e1 = toLowerCase e2 →
     records_for e1 (subscribers d) = [] →
     ∃ w1 w2 rec cs,
       saveSubscriber (mkSubscriber e1 (JArr [JStr A; JStr B]) c1 u1 a1) w
       = (Normal true, w1)
       ∧ saveSubscriber (mkSubscriber e2 (JArr [JStr B; JStr C]) c2 u2 a2) w1
         = (Normal true, w2)
       ∧ (subscribers <$> loaded w2) = Some (subscribers d ++ [rec])
       ∧ records_for e1 (subscribers d ++ [rec]) = [rec]
       ∧ countries rec = JArr (map JStr cs)
       ∧ NoDup cs
       ∧ (∀ c, c ∈ cs ↔ c ∈ [A; B; C])
       ∧ active rec = true).
Proof.
  split.
  - intros w d new nw Hd Hex Harr Hnew.
    destruct (save_merge_first_match new w d nw Hd Hex Harr Hnew)
      as (i & existing & old & Hlook & Hm & _ & Hold & Hsave).
    eexists i, existing, old, _, _.
    split; [done|]. split; [done|]. split; [done|]. split; [exact Hsave|].
    split; [reflexivity|]. simpl. by rewrite length_insert.
  - intros w d e1 e2 A B C c1 c2 u1 u2 a1 a2 Hd He Hnone.
    set (first := mkSubscriber e1 (JArr [JStr A; JStr B]) c1 u1 a1).
    set (second := mkSubscriber e2 (JArr [JStr B; JStr C]) c2 u2 a2).
    assert (Hfree1 : Forall (λ s, same_email first s = false) (subscribers d))
      by by apply records_for_none.
    assert (Hfree2 : Forall (λ s, same_email second s = false) (subscribers d)).
    { apply records_for_none. simpl. by rewrite <- (records_for_same e1 e2). }
    assert (Hsame : same_email second first = true).
    { unfold same_email. simpl. rewrite He. apply String.eqb_refl. }
    pose proof (save_insert first w d Hd (proj2 (findIndex_none _ _) Hfree1)) as S1.
    set (w1 := written w _ 1) in S1.
    destruct (new_Set_strings [A; B; B; C]) as (cs & Ecs & Hnd & Hcs).
    pose proof (save_merge second first w1
                  (mkDocument (subscribers d ++ [first])
                     (Some (clock w (clock_reads w))) (version d))
                  (length (subscribers d)) [JStr A; JStr B] [JStr B; JStr C]
                  eq_refl) as S2.
    simpl in S2. rewrite findIndex_app_last in S2 by done.
    rewrite list_lookup_middle in S2 by done.
    specialize (S2 eq_refl eq_refl eq_refl eq_refl).
    rewrite insert_app_r_alt, Nat.sub_diag in S2 by done. simpl in S2.
    eexists w1, _, _, cs. split; [exact S1|]. split; [exact S2|].
    split; [reflexivity|]. simpl. repeat split.
    + unfold records_for in *. rewrite List.filter_app, Hnone. simpl.
      unfold lower_email. simpl. by rewrite String.eqb_refl.
    + f_equal. exact Ecs.
    + exact Hnd.
    + intros Hc. apply Hcs in Hc. rewrite !elem_of_cons, elem_of_nil in *. tauto.
    + intros Hc. apply Hcs. rewrite !elem_of_cons, elem_of_nil in *. tauto.
Qed.


(** C2. If each lowercase email occurs in at most one record of the
    document, it still does after a successful save (whatever the case
    of the new subscriber's email). *)
Theorem C2_save_preserves_unique_emails
    (new : Subscriber) (w w' : World) (d : Document) :
  loaded w = Some d →
  unique_emails (subscribers d) →
  saveSubscriber new w = (Normal true, w') →
  ∃ d', disk w' = File (Parsed d') ∧ unique_emails (subscribers d').
Proof.
  intros Hd Huniq Hsave.
  destruct (save_true_inv new w w' Hsave) as (d0 & Hd0 & Hcases).
  assert (d0 = d) as -> by congruence.
  destruct Hcases as [[Hfree ->] | (i & existing & old & nw & Hlook & _ & _ & _ & _ & ->)];
    eexists; (split; [reflexivity|]); unfold unique_emails in *; simpl.
  - rewrite map_app. simpl. apply NoDup_app. split; [done|].
    split; [|apply NoDup_singleton].
    intros e He ->%list_elem_of_singleton.
    apply list_elem_of_fmap in He as (s & Es & Hs).
    rewrite Forall_forall in Hfree. specialize (Hfree s Hs). simpl in Hfree.
    unfold same_email in Hfree. apply String.eqb_neq in Hfree.
    unfold lower_email in Es. congruence.
  - change (map lower_email ?l) with (lower_email <$> l).
    rewrite list_fmap_insert. unfold lower_email at 1. simpl.
    rewrite list_insert_id; [done|].
    rewrite list_lookup_fmap, Hlook. done.
Qed.

(** C8. A successful save sets [last_updated] to the clock reading it
    takes last, on an insert as on a merge; on a merge the record at the
    matching position keeps its [created_at] (and its email), the
    sequence keeps its length and every other position is untouched. *)
Theorem C8_merge_frame_and_last_updated
    (new : Subscriber) (w w' : World) (d : Document) :
  loaded w = Some d →
  saveSubscriber new w = (Normal true, w') →
  ∃ d', disk w' = File (Parsed d')
    ∧ (clock_reads w < clock_reads w')%nat
    ∧ last_updated d' = Some (clock w (pred (clock_reads w')))
    ∧ ∀ i existing,
        findIndex (same_email new) (subscribers d) = Z.of_nat i →
        subscribers d !! i = Some existing →
        (∃ merged, subscribers d' !! i = Some merged
                   ∧ created_at merged = created_at existing
                   ∧ email merged = email existing)
        ∧ length (subscribers d') = length (subscribers d)
        ∧ ∀ j, j ≠ i → subscribers d' !! j = subscribers d !! j.
Proof.
  intros Hd Hsave.
  destruct (save_true_inv new w w' Hsave) as (d0 & Hd0 & Hcases).
  assert (d0 = d) as -> by congruence.
  destruct Hcases as [[Hfree ->] | (i & existing & old & nw & Hlook & Hm & Hbefore & _ & _ & ->)];
    eexists; (split; [reflexivity|]); simpl; (split; [lia|]); (split; [done|]).
  - intros i existing Hidx. apply findIndex_none in Hfree. lia.
  - intros i' existing' Hidx Hlook'.
    destruct (findIndex_some (same_email new) (subscribers d)) as (x & Hx & _); [lia|].
    rewrite Hidx, Nat2Z.id in Hx.
    assert (i' = i) as ->.
    { destruct (Nat.lt_trichotomy i' i) as [Hlt|[->|Hgt]]; [|done|].
      - rewrite Forall_lookup in Hbefore.
        assert (same_email new existing' = false) as Hf.
        { apply (Hbefore i'). by rewrite lookup_take_lt. }
        destruct (findIndex_some (same_email new) (subscribers d)) as (y & Hy & Hpy & _); [lia|].
        rewrite Hidx, Nat2Z.id in Hy. congruence.
      - destruct (findIndex_some (same_email new) (subscribers d)) as (y & _ & _ & Hb); [lia|].
        rewrite Hidx, Nat2Z.id in Hb. rewrite Forall_lookup in Hb.
        assert (same_email new existing = false) as Hf.
        { apply (Hb i). by rewrite lookup_take_lt. }
        congruence. }
    assert (existing' = existing) as -> by congruence.
    split; [|split].
    + eexists. split; [apply list_lookup_insert_eq; by eapply lookup_lt_Some|]. done.
    + by rewrite length_insert.
    + intros j Hj. by rewrite list_lookup_insert_ne.
Qed.

(** C9. A successful save neither removes nor reorders subscribers: the
    emails stored before are a prefix of those stored afterwards, and
    either a record matched and the emails and the length are unchanged,
    or none matched and exactly the new record was appended. *)
Theorem C9_save_keeps_subscribers
    (new : Subscriber) (w w' : World) (d : Document) :
  loaded w = Some d →
  saveSubscriber new w = (Normal true, w') →
  ∃ d', disk w' = File (Parsed d')
    ∧ map email (subscribers d) `prefix_of` map email (subscribers d')
    ∧ (length (subscribers d) ≤ length (subscribers d'))%nat
    ∧ ( (Exists (λ s, same_email new s = true) (subscribers d)
         ∧ map email (subscribers d') = map email (subscribers d)
         ∧ length (subscribers d') = length (subscribers d))
      ∨ (Forall (λ s, same_email new s = false) (subscribers d)
         ∧ subscribers d' = subscribers d ++ [new]
         ∧ length (subscribers d') = S (length (subscribers d))) ).
Proof.
  intros Hd Hsave.
  destruct (save_true_inv new w w' Hsave) as (d0 & Hd0 & Hcases).
  assert (d0 = d) as -> by congruence.
  destruct Hcases as [[Hfree ->] | (i & existing & old & nw & Hlook & Hm & _ & _ & _ & ->)];
    eexists; (split; [reflexivity|]); simpl.
  - rewrite map_app, length_app. simpl.
    split; [by apply prefix_app_r|]. split; [lia|]. right.
    split; [done|]. split; [done|]. lia.
  - assert (E : map email
                  (<[i := mkSubscriber (email existing) (JArr (new_Set (old ++ nw)))
                            (created_at existing)
                            (Some (clock w (clock_reads w))) true]>
                     (subscribers d))
                = map email (subscribers d)).
    { change (map email ?l) with (email <$> l).
      rewrite list_fmap_insert. simpl. apply list_insert_id.
      by rewrite list_lookup_fmap, Hlook. }
    rewrite E, length_insert. split; [done|]. split; [lia|]. left.
    split; [|done]. apply Exists_exists. exists existing.
    split; [by eapply list_elem_of_lookup_2 | done].
Qed.

End SaveProperties.

(** ** The subscribe handler *)

Section HandlerProperties.
Import Subscribe.

Variable JSON_parse : string → option jsval.
Variable URLSearchParams : string → list (string * string).

Local Abbreviation parseBody := (Subscribe.parseBody JSON_parse URLSearchParams).
Local Abbreviation normalize_countries := (Subscribe.normalize_countries JSON_parse).
Local Abbreviation handler := (Subscribe.handler JSON_parse URLSearchParams).

Local Arguments isValidEmail : simpl never.
Local Arguments falsy : simpl never.

Lemma member_defined (b : jsval) (k k' : string) (x : option jsval) :
  member b k = Normal x → ∃ y, member b k' = Normal y.
Proof. destruct b; simpl; intros H; try discriminate; eauto. Qed.

Lemma valid_not_falsy (s : string) :
  isValidEmail (Some (JStr s)) = true → falsy (Some (JStr s)) = false.
Proof. unfold isValidEmail, falsy. by destruct (is_empty s). Qed.

Lemma handler_invalid_email (event : Event) (w : World) (b : jsval)
    (field : option jsval) (email : option string) (created_raw : option jsval) :
  httpMethod event = "POST" →
  parseBody (body event) (headers event !! "content-type") = Normal b →
  member b "email" = Normal field →
  normalize_email field = Normal email →
  member b "created_at" = Normal created_raw →
  falsy (JStr <$> email) || negb (isValidEmail (JStr <$> email)) = true →
  handler event w
  = (Normal (respond 400 (ErrorBody "Invalid email address")),
     after_created_at created_raw w).
Proof.
  intros Hpost Hbody Hfield Hemail Hcreated Hbad.
  destruct (member_defined b "email" "countries" field Hfield) as [cr Hcr].
  unfold Subscribe.handler. rewrite Hpost. simpl.
  unfold try_catch, mbind, JS_bind, lift. rewrite Hbody, Hfield, Hemail, Hcr, Hcreated.
  unfold after_created_at. destruct (falsy created_raw); simpl; by rewrite Hbad.
Qed.

Lemma handler_reaches_save (event : Event) (w : World) (b : jsval)
    (e : string) (cr created_raw : option jsval) (cs : jsval) :
  httpMethod event = "POST" →
  parseBody (body event) (headers event !! "content-type") = Normal b →
  member b "email" = Normal (Some (JStr e)) →
  isValidEmail (Some (JStr (toLowerCase (trim e)))) = true →
  member b "countries" = Normal cr →
  member b "created_at" = Normal created_raw →
  normalize_countries cr = Normal cs →
  no_countries cs = Normal false →
  let subscriber :=
    mkSubscriber (toLowerCase (trim e)) cs (created_at_of created_raw w) None true in
  handler event w
  = match saveSubscriber subscriber (after_created_at created_raw w) with
    | (Normal true, w') => (Normal (subscribed subscriber), w')
    | (Normal false, w') =>
        (Normal (respond 500 (ErrorBody "Failed to save subscription")), w')
    | (Thrown, w') => (Normal (respond 500 (ErrorBody "Internal server error")), w')
    end.
Proof.
  intros Hpost Hbody Hfield Hvalid Hcr Hcreated Hcs Hnone. simpl.
  unfold Subscribe.handler. rewrite Hpost. simpl.
  unfold try_catch, mbind, JS_bind, lift. rewrite Hbody, Hfield. simpl.
  rewrite Hcr, Hcreated.
  unfold after_created_at, created_at_of.
  destruct (falsy created_raw); simpl;
    rewrite Hvalid, (valid_not_falsy _ Hvalid); simpl;
    rewrite Hcs, Hnone;
    match goal with |- context [saveSubscriber ?s ?w0] =>
      destruct (saveSubscriber s w0) as [[[]|] ?] end; reflexivity.
Qed.


Lemma handler_no_countries (event : Event) (w : World) (b : jsval)
    (e : string) (cr created_raw : option jsval) (cs : jsval) :
  httpMethod event = "POST" →
  parseBody (body event) (headers event !! "content-type") = Normal b →
  member b "email" = Normal (Some (JStr e)) →
  isValidEmail (Some (JStr (toLowerCase (trim e)))) = true →
  member b "countries" = Normal cr →
  member b "created_at" = Normal created_raw →
  normalize_countries cr = Normal cs →
  no_countries cs = Normal true →
  handler event w
  = (Normal (respond 400 (ErrorBody "At least one country must be selected")),
     after_created_at created_raw w).
Proof.
  intros Hpost Hbody Hfield Hvalid Hcr Hcreated Hcs Hnone.
  unfold Subscribe.handler. rewrite Hpost. simpl.
  unfold try_catch, mbind, JS_bind, lift. rewrite Hbody, Hfield. simpl.
  rewrite Hcr, Hcreated. unfold after_created_at.
  destruct (falsy created_raw); simpl;
    rewrite Hvalid, (valid_not_falsy _ Hvalid); simpl; by rewrite Hcs, Hnone.
Qed.

(** C7. A request whose method is not POST is answered 405 with the
    error [Method not allowed]; the world (the store included) is left
    as it was, and neither the body nor the headers matter. *)
Theorem C7_non_post_is_rejected (event : Event) (w : World) :
  httpMethod event ≠ "POST" →
  handler event w = (Normal (respond 405 (ErrorBody "Method not allowed")), w).
Proof.
  intros Hm. unfold Subscribe.handler.
  by destruct (String.eqb_spec (httpMethod event) "POST").
Qed.

(** C10. A POST without a body, with an empty body, or with a body of
    no recognized content type that [JSON.parse] rejects, is parsed to
    the empty object, and the handler answers 400 [Invalid email
    address]; the store is not touched. *)
Theorem C10_empty_body_is_invalid_email (event : Event) (w : World) :
  httpMethod event = "POST" →
  body event = None ∨ body event = Some EmptyString
  ∨ (∃ text, body event = Some text
       ∧ type_includes (headers event !! "content-type") "application/json" = false
       ∧ type_includes (headers event !! "content-type")
           "application/x-www-form-urlencoded" = false
       ∧ JSON_parse text = None) →
  parseBody (body event) (headers event !! "content-type") = Normal (JObj [])
  ∧ handler event w
    = (Normal (respond 400 (ErrorBody "Invalid email address")),
       mkWorld (disk w) (clock w) (S (clock_reads w))).
Proof.
  intros Hpost Hbody.
  assert (Hparse : parseBody (body event) (headers event !! "content-type")
                   = Normal (JObj [])).
  { destruct Hbody as [-> | [-> | (text & -> & Hj & Hf & Hp)]]; [done..|].
    unfold Subscribe.parseBody. rewrite Hj, Hf. unfold parse_json. rewrite Hp.
    by destruct text. }
  split; [done|].
  by rewrite (handler_invalid_email event w (JObj []) None None None).
Qed.

(** C6. When the subscriber file exists and does not parse,
    [saveSubscriber] returns false and leaves the world, the file
    included, as it was; a POST that passes validation is then answered
    500 [Failed to save subscription], and the file still holds the
    text it held. *)
Theorem C6_unparseable_store_is_kept (new : Subscriber) (w : World) (raw : string) :
  disk w = File (Unparseable raw) →
  saveSubscriber new w = (Normal false, w)
  ∧ ∀ (event : Event) (b : jsval) (e : string) (cr : option jsval) (cs : jsval),
      httpMethod event = "POST" →
      parseBody (body event) (headers event !! "content-type") = Normal b →
      member b "email" = Normal (Some (JStr e)) →
      isValidEmail (Some (JStr (toLowerCase (trim e)))) = true →
      member b "countries" = Normal cr →
      normalize_countries cr = Normal cs →
      no_countries cs = Normal false →
      ∃ w', handler event w
            = (Normal (respond 500 (ErrorBody "Failed to save subscription")), w')
            ∧ disk w' = File (Unparseable raw).
Proof.
  intros Hdisk. split; [exact (save_unparseable new w raw Hdisk)|].
  intros event b e cr cs Hpost Hbody Hfield Hvalid Hcr Hcs Hnone.
  destruct (member_defined b "email" "created_at" _ Hfield) as [created_raw Hc].
  assert (Hdisk' : disk (after_created_at created_raw w) = File (Unparseable raw)).
  { unfold after_created_at. by destruct (falsy created_raw). }
  exists (after_created_at created_raw w). split; [|done].
  rewrite (handler_reaches_save event w b e cr created_raw cs) by done.
  by rewrite (save_unparseable _ _ raw Hdisk').
Qed.

Lemma normalize_countries_parsed (raw : string) (v : jsval) :
  JSON_parse raw = Some v → normalize_countries (Some (JStr raw)) = Normal v.
Proof. intros H. unfold Subscribe.normalize_countries, parse_json. by rewrite H. Qed.

Lemma normalize_countries_split (raw : string) :
  JSON_parse raw = None →
  normalize_countries (Some (JStr raw)) = Normal (JArr (map JStr (split_countries raw))).
Proof. intros H. unfold Subscribe.normalize_countries, parse_json. by rewrite H. Qed.

(** C3 (fails on the code).  A countries string that [JSON.parse]
    accepts is used as parsed: with the text of the array
    [["no"," se"]] the handler answers 200 and stores a subscriber whose
    countries are [no] and [ se], neither trimmed nor uppercase. *)
Theorem C3_json_text_is_not_normalized
    (event : Event) (w : World) (props : list (string * jsval)) (e raw : string) :
  httpMethod event = "POST" →
  parseBody (body event) (headers event !! "content-type") = Normal (JObj props) →
  get_prop props "email" = Some (JStr e) →
  isValidEmail (Some (JStr (toLowerCase (trim e)))) = true →
  get_prop props "countries" = Some (JStr raw) →
  JSON_parse raw = Some (JArr [JStr "no"; JStr " se"]) →
  disk w = NoFile →
  ∃ w' stored,
    handler event w
    = (Normal (mkResponse 200 [("Content-Type", "application/json")]
                 (SubscribedBody true "Subscription successful"
                    (toLowerCase (trim e)) (JArr [JStr "no"; JStr " se"]))), w')
    ∧ (subscribers <$> loaded w') = Some [stored]
    ∧ countries stored = JArr [JStr "no"; JStr " se"]
    ∧ toUpperCase "no" ≠ "no" ∧ trim " se" ≠ " se".
Proof.
  intros Hpost Hbody Hemail Hvalid Hcountries Hparse Hdisk.
  pose proof (handler_reaches_save event w (JObj props) e
                (Some (JStr raw)) (get_prop props "created_at")
                (JArr [JStr "no"; JStr " se"]) Hpost Hbody) as Hrun.
  simpl in Hrun. rewrite Hemail, Hcountries in Hrun.
  unfold parse_json in Hrun. rewrite Hparse in Hrun.
  specialize (Hrun eq_refl Hvalid eq_refl eq_refl eq_refl eq_refl).
  set (w0 := after_created_at (get_prop props "created_at") w) in *.
  assert (Hload : loaded w0 = Some empty_document).
  { unfold loaded, w0, after_created_at.
    destruct (falsy _); simpl; by rewrite Hdisk. }
  rewrite (save_insert _ w0 empty_document Hload) in Hrun by (simpl; lia).
  simpl in Hrun. eexists _, _. split; [exact Hrun|]. by repeat split.
Qed.

End HandlerProperties.

(** ** The comma-separated form of the countries *)

Section CountriesText.
Import Subscribe.

Local Arguments upper_char : simpl never.
Local Arguments is_space : simpl never.

Lemma upper_char_idem (c : ascii) : upper_char (upper_char c) = upper_char c.
Proof. by destruct c as [[] [] [] [] [] [] [] []]. Qed.

Lemma is_space_upper_char (c : ascii) : is_space (upper_char c) = is_space c.
Proof. by destruct c as [[] [] [] [] [] [] [] []]. Qed.

Lemma toUpperCase_idem (s : string) : toUpperCase (toUpperCase s) = toUpperCase s.
Proof.
  unfold toUpperCase. induction s as [|c s IH]; simpl; [done|].
  rewrite upper_char_idem. f_equal. exact IH.
Qed.

Lemma trimStart_upper (s : string) :
  trimStart (toUpperCase s) = toUpperCase (trimStart s).
Proof.
  unfold toUpperCase. induction s as [|c s IH]; simpl; [done|].
  rewrite is_space_upper_char. by destruct (is_space c).
Qed.

Lemma trimEnd_upper (s : string) :
  trimEnd (toUpperCase s) = toUpperCase (trimEnd s).
Proof.
  unfold toUpperCase. induction s as [|c s IH]; simpl; [done|].
  rewrite IH, is_space_upper_char.
  destruct (trimEnd s); simpl; [by destruct (is_space c) | done].
Qed.

Lemma trim_upper (s : string) : trim (toUpperCase s) = toUpperCase (trim s).
Proof. unfold trim. by rewrite trimStart_upper, trimEnd_upper. Qed.

Lemma trimEnd_idem (s : string) : trimEnd (trimEnd s) = trimEnd s.
Proof.
  induction s as [|c s IH]; simpl; [done|].
  destruct (trimEnd s) as [|d r] eqn:E.
  - destruct (is_space c) eqn:Hc; simpl; [done|]. by rewrite Hc.
  - change (trimEnd (String c (String d r))) with
      (match trimEnd (String d r) with
       | EmptyString => if is_space c then EmptyString else String c EmptyString
       | r' => String c r'
       end).
    by rewrite IH.
Qed.

Lemma trimStart_fixed (s : string) :
  match s with String c _ => is_space c = false | EmptyString => True end →
  trimStart s = s.
Proof. destruct s as [|c s]; simpl; [done|]. by intros ->. Qed.

Lemma trimStart_head (s : string) :
  match trimStart s with String c _ => is_space c = false | EmptyString => True end.
Proof.
  induction s as [|c s IH]; simpl; [done|].
  destruct (is_space c) eqn:Hc; [done|]. exact Hc.
Qed.

Lemma trimEnd_head (s : string) :
  match s with String c _ => is_space c = false | EmptyString => True end →
  match trimEnd s with String c _ => is_space c = false | EmptyString => True end.
Proof.
  destruct s as [|c s]; simpl; [done|]. intros Hc.
  destruct (trimEnd s); [by rewrite Hc | done].
Qed.

Lemma trim_idem (s : string) : trim (trim s) = trim s.
Proof.
  unfold trim.
  rewrite (trimStart_fixed (trimEnd (trimStart s))).
  - apply trimEnd_idem.
  - apply trimEnd_head, trimStart_head.
Qed.

(** What the comma branch produces is trimmed, uppercase and free of
    empty entries. *)
Lemma split_countries_normalized (s : string) :
  Forall (λ c, trim c = c ∧ toUpperCase c = c ∧ c ≠ EmptyString) (split_countries s).
Proof.
  unfold split_countries. apply Forall_forall. intros c Hc.
  apply list_elem_of_In, filter_In in Hc as [Hin Hne].
  apply in_map_iff in Hin as (x & <- & _).
  split; [|split].
  - by rewrite trim_upper, trim_idem.
  - apply toUpperCase_idem.
  - intros E. by rewrite E in Hne.
Qed.

Example split_countries_no_se : split_countries "no,se" = ["NO"; "SE"].
Proof. reflexivity. Qed.

End CountriesText.

(** ** The countries endpoint *)

Section CountriesProperties.
Import Countries.

Variable localeCompare : string → string → Z.

(** [localeCompare] is a consistent comparator. *)
Hypothesis compare_flip : ∀ a b, 0 < localeCompare a b → localeCompare b a ≤ 0.
Hypothesis compare_trans :
  ∀ a b c, localeCompare a b ≤ 0 → localeCompare b c ≤ 0 → localeCompare a c ≤ 0.

Local Abbreviation by_name := (Countries.by_name localeCompare).
Local Abbreviation handler := (Countries.handler localeCompare).

Lemma sort_insert_perm {A} (cmp : A → A → Z) (x : A) (l : list A) :
  sort_insert cmp x l ≡ₚ x :: l.
Proof.
  induction l as [|y l IH]; simpl; [done|].
  destruct (0 <? cmp x y); [|done]. rewrite IH. apply Permutation_swap.
Qed.

Lemma Array_sort_perm {A} (cmp : A → A → Z) (l : list A) : Array_sort cmp l ≡ₚ l.
Proof.
  induction l as [|x l IH]; simpl; [done|].
  by rewrite sort_insert_perm, IH.
Qed.

Lemma sort_insert_sorted (x : CountryEntry) (l : list CountryEntry) :
  StronglySorted (λ a b, by_name a b ≤ 0) l →
  StronglySorted (λ a b, by_name a b ≤ 0) (sort_insert by_name x l).
Proof.
  induction 1 as [|y l Hl IH Hy]; simpl.
  - repeat constructor.
  - destruct (Z.ltb_spec 0 (by_name x y)) as [Hgt|Hle].
    + constructor; [done|].
      rewrite sort_insert_perm. constructor; [|done].
      by apply compare_flip.
    + constructor; [by constructor|].
      constructor; [done|].
      eapply Forall_impl; [exact Hy|]. intros z Hz. simpl in Hz.
      unfold Countries.by_name in *. by eapply compare_trans.
Qed.

Lemma Array_sort_sorted (l : list CountryEntry) :
  StronglySorted (λ a b, by_name a b ≤ 0) (Array_sort by_name l).
Proof.
  induction l as [|x l IH]; simpl; [constructor|].
  by apply sort_insert_sorted.
Qed.


(** C5. Whenever the configuration loads, the countries endpoint
    answers 200 with exactly the entries whose [enabled] is not [false],
    each with [enabled: true], in ascending order of [localeCompare] on
    the names, whatever the order of the input.  When the file is
    missing the configuration is the built-in table: 18 countries, in
    the order listed, all enabled, and all 18 are returned. *)
Theorem C5_countries_listing :
  (∀ (config : ConfigFile) (countries : list Country),
     load config = Normal countries →
     ∃ entries,
       handler config
       = mkResponse 200
           [("Content-Type", "application/json");
            ("Cache-Control", "public, max-age=3600");
            ("Access-Control-Allow-Origin", "*")]
           (CountriesBody entries)
       ∧ entries ≡ₚ map emit (List.filter not_disabled countries)
       ∧ (∀ e, e ∈ entries ↔
               ∃ c, c ∈ countries ∧ enabled c ≠ Some (JBool false)
                    ∧ e = mkEntry (code c) (name c) true)
       ∧ Forall (λ e, entry_enabled e = true) entries
       ∧ StronglySorted
           (λ a b, localeCompare (entry_name a) (entry_name b) ≤ 0) entries)
  ∧ load Missing = Normal getDefaultCountries
  ∧ map name getDefaultCountries
    = ["Norway"; "Sweden"; "Germany"; "Netherlands"; "Denmark"; "Finland";
       "France"; "Belgium"; "Austria"; "Switzerland"; "Italy"; "Spain";
       "Portugal"; "Ireland"; "Poland"; "Czech Republic"; "Hungary";
       "European Union"]
  ∧ Forall (λ c, enabled c = Some (JBool true)) getDefaultCountries
  ∧ (∃ entries,
       response_body (handler Missing) = CountriesBody entries
       ∧ entries ≡ₚ map emit getDefaultCountries
       ∧ length entries = 18%nat).
Proof.
  split; [|split; [done|split; [done|split; [by repeat constructor|]]]].
  - intros config countries Hload.
    set (entries := Array_sort by_name (map emit (List.filter not_disabled countries))).
    assert (Hperm : entries ≡ₚ map emit (List.filter not_disabled countries))
      by apply Array_sort_perm.
    assert (Hmem : ∀ e, e ∈ entries ↔
              ∃ c, c ∈ countries ∧ enabled c ≠ Some (JBool false)
                   ∧ e = mkEntry (code c) (name c) true).
    { intros e. rewrite Hperm. rewrite list_elem_of_In, in_map_iff. split.
      - intros (c & <- & Hc). apply filter_In in Hc as [Hc Hen].
        exists c. split; [by apply list_elem_of_In|]. split; [|done].
        intros E. unfold not_disabled in Hen. by rewrite E in Hen.
      - intros (c & Hc & Hen & ->). exists c. split; [done|].
        apply filter_In. split; [by apply list_elem_of_In|].
        unfold not_disabled. by destruct (enabled c) as [[| [] | | | |]|]. }
    exists entries. split; [by unfold Countries.handler; rewrite Hload|].
    split; [done|]. split; [done|]. split.
    + apply Forall_forall. intros e He. apply Hmem in He as (c & _ & _ & ->). done.
    + apply Array_sort_sorted.
  - eexists. split; [reflexivity|].
    assert (Hperm : Array_sort by_name (map emit (List.filter not_disabled getDefaultCountries))
                    ≡ₚ map emit getDefaultCountries) by apply Array_sort_perm.
    split; [exact Hperm|]. by rewrite Hperm.
Qed.

End CountriesProperties.

(** ** The sample comparator is consistent *)

Section SampleFacts.

Lemma sample_compare_le (a b : string) :
  Sample.localeCompare a b ≤ 0 ↔ String.le a b.
Proof.
  unfold Sample.localeCompare, String.le, String.leb.
  destruct (String.compare a b); simpl; split; (lia || done).
Qed.

Lemma sample_compare_flip (a b : string) :
  0 < Sample.localeCompare a b → Sample.localeCompare b a ≤ 0.
Proof.
  unfold Sample.localeCompare. rewrite (String.compare_antisym b a).
  destruct (String.compare a b); simpl; lia.
Qed.

Lemma sample_compare_trans (a b c : string) :
  Sample.localeCompare a b ≤ 0 → Sample.localeCompare b c ≤ 0 →
  Sample.localeCompare a c ≤ 0.
Proof.
  rewrite !sample_compare_le. intros Hab Hbc. by etrans.
Qed.

End SampleFacts.

(** ** The statements at concrete inputs *)

Lemma sample_resubscription :
  (∃ i existing old t w',
     subscribers Sample.document !! i = Some existing
     ∧ Subscribe.same_email Sample.ann_again existing = true
     ∧ countries existing = JArr old
     ∧ Subscribe.saveSubscriber Sample.ann_again
         (Sample.world (File (Parsed Sample.document)))
       = (Normal true, w')
     ∧ (subscribers <$> loaded w')
       = Some (<[i := mkSubscriber (email existing)
                        (JArr (new_Set (old ++ [JStr "SE"; JStr "DK"])))
                        (created_at existing) (Some t) true]>
                 (subscribers Sample.document))
     ∧ (length <$> (subscribers <$> loaded w'))
       = Some (length (subscribers Sample.document)))
  ∧
  (∃ w1 w2 rec cs,
    Subscribe.saveSubscriber
      (mkSubscriber "ann@example.com" (JArr [JStr "NO"; JStr "SE"]) JNull None false)
      (Sample.world (File (Parsed (mkDocument [Sample.bob] None "1.0"))))
    = (Normal true, w1)
    ∧ Subscribe.saveSubscriber
        (mkSubscriber "Ann@Example.com" (JArr [JStr "SE"; JStr "DK"]) JNull None false)
        w1
      = (Normal true, w2)
    ∧ (subscribers <$> loaded w2) = Some ([Sample.bob] ++ [rec])
    ∧ records_for "ann@example.com" ([Sample.bob] ++ [rec]) = [rec]
    ∧ countries rec = JArr (map JStr cs)
    ∧ NoDup cs
    ∧ (∀ c, c ∈ cs ↔ c ∈ ["NO"; "SE"; "DK"])
    ∧ active rec = true).
Proof.
  split.
  - apply (proj1 C1_save_merges_same_email
             (Sample.world (File (Parsed Sample.document)))
             Sample.document Sample.ann_again [JStr "SE"; JStr "DK"]).
    + reflexivity.
    + apply Exists_cons_tl, Exists_cons_hd. reflexivity.
    + repeat constructor.
    + reflexivity.
  - apply (proj2 C1_save_merges_same_email
             (Sample.world (File (Parsed (mkDocument [Sample.bob] None "1.0"))))
             (mkDocument [Sample.bob] None "1.0")
             "ann@example.com" "Ann@Example.com" "NO" "SE" "DK"
             JNull JNull None None false false); reflexivity.
Defined.

(** The merged record of the sample, computed. *)
Example sample_merged_record :
  loaded (Subscribe.saveSubscriber Sample.ann_again
            (Sample.world (File (Parsed Sample.document)))).2
  = Some (mkDocument
            [Sample.bob;
             mkSubscriber "ann@example.com"
               (JArr [JStr "NO"; JStr "SE"; JStr "DK"])
               (JStr "2023-12-31T00:00:00.000Z")
               (Some "2024-01-01T00:00:00.000Z") true]
            (Some "2024-01-01T00:00:01.000Z") "1.0").
Proof. reflexivity. Qed.

Lemma sample_unique_after_merge :
  ∃ d',
    disk (Subscribe.saveSubscriber Sample.ann_again
            (Sample.world (File (Parsed Sample.document)))).2
    = File (Parsed d')
    ∧ unique_emails (subscribers d').
Proof.
  apply (C2_save_preserves_unique_emails Sample.ann_again
           (Sample.world (File (Parsed Sample.document))) _ Sample.document).
  - reflexivity.
  - apply (bool_decide_unpack _). vm_compute. exact I.
  - reflexivity.
Defined.

Lemma sample_merge_frame :
  ∃ d',
    disk (Subscribe.saveSubscriber Sample.ann_again
            (Sample.world (File (Parsed Sample.document)))).2
    = File (Parsed d')
    ∧ last_updated d' = Some "2024-01-01T00:00:01.000Z"
    ∧ (∃ merged, subscribers d' !! 1%nat = Some merged
                 ∧ created_at merged = JStr "2023-12-31T00:00:00.000Z"
                 ∧ email merged = "ann@example.com")
    ∧ length (subscribers d') = 2%nat
    ∧ subscribers d' !! 0%nat = Some Sample.bob.
Proof.
  destruct (C8_merge_frame_and_last_updated Sample.ann_again
              (Sample.world (File (Parsed Sample.document)))
              (Subscribe.saveSubscriber Sample.ann_again
                 (Sample.world (File (Parsed Sample.document)))).2
              Sample.document eq_refl eq_refl)
    as (d' & Hdisk & _ & Hlast & Hframe).
  destruct (Hframe 1%nat Sample.ann eq_refl eq_refl) as (Hmerged & Hlen & Hother).
  exists d'. split; [exact Hdisk|]. split; [exact Hlast|].
  split; [exact Hmerged|]. split; [exact Hlen|].
  apply (Hother 0%nat). discriminate.
Defined.

Lemma sample_merge_keeps_order :
  ∃ d',
    disk (Subscribe.saveSubscriber Sample.ann_again
            (Sample.world (File (Parsed Sample.document)))).2
    = File (Parsed d')
    ∧ map email (subscribers Sample.document) `prefix_of` map email (subscribers d')
    ∧ (length (subscribers Sample.document) ≤ length (subscribers d'))%nat
    ∧ ( (Exists (λ s, Subscribe.same_email Sample.ann_again s = true)
           (subscribers Sample.document)
         ∧ map email (subscribers d') = map email (subscribers Sample.document)
         ∧ length (subscribers d') = length (subscribers Sample.document))
      ∨ (Forall (λ s, Subscribe.same_email Sample.ann_again s = false)
           (subscribers Sample.document)
         ∧ subscribers d' = subscribers Sample.document ++ [Sample.ann_again]
         ∧ length (subscribers d') = S (length (subscribers Sample.document))) ).
Proof.
  apply (C9_save_keeps_subscribers Sample.ann_again
           (Sample.world (File (Parsed Sample.document))) _ Sample.document);
    reflexivity.
Defined.

Lemma sample_get_request :
  Subscribe.handler Sample.JSON_parse Sample.URLSearchParams
    Sample.get_event (Sample.world NoFile)
  = (Normal (Subscribe.respond 405 (ErrorBody "Method not allowed")),
     Sample.world NoFile).
Proof.
  apply (C7_non_post_is_rejected Sample.JSON_parse Sample.URLSearchParams
           Sample.get_event (Sample.world NoFile)).
  discriminate.
Defined.

Lemma sample_post_without_body :
  Subscribe.parseBody Sample.JSON_parse Sample.URLSearchParams
    (Subscribe.body Sample.empty_post)
    (Subscribe.headers Sample.empty_post !! "content-type")
  = Normal (JObj [])
  ∧ Subscribe.handler Sample.JSON_parse Sample.URLSearchParams
      Sample.empty_post (Sample.world NoFile)
    = (Normal (Subscribe.respond 400 (ErrorBody "Invalid email address")),
       mkWorld NoFile Sample.clock 1).
Proof.
  apply (C10_empty_body_is_invalid_email Sample.JSON_parse Sample.URLSearchParams
           Sample.empty_post (Sample.world NoFile)).
  - reflexivity.
  - left. reflexivity.
Defined.

Lemma sample_unparseable_file :
  Subscribe.saveSubscriber Sample.ann (Sample.world (File (Unparseable "{")))
  = (Normal false, Sample.world (File (Unparseable "{")))
  ∧ ∃ w',
      Subscribe.handler Sample.JSON_parse Sample.URLSearchParams
        Sample.form_post (Sample.world (File (Unparseable "{")))
      = (Normal (Subscribe.respond 500 (ErrorBody "Failed to save subscription")), w')
      ∧ disk w' = File (Unparseable "{").
Proof.
  destruct (C6_unparseable_store_is_kept Sample.JSON_parse Sample.URLSearchParams
              Sample.ann (Sample.world (File (Unparseable "{"))) "{" eq_refl)
    as [Hsave Hhandler].
  split; [exact Hsave|].
  apply (Hhandler Sample.form_post
           (JObj [("email", JStr "a@b.co"); ("countries", JStr Sample.lower_array_text)])
           "a@b.co" (Some (JStr Sample.lower_array_text))
           (JArr [JStr "no"; JStr " se"])); reflexivity.
Defined.

Lemma sample_json_array_text :
  ∃ w' stored,
    Subscribe.handler Sample.JSON_parse Sample.URLSearchParams
      Sample.form_post (Sample.world NoFile)
    = (Normal (mkResponse 200 [("Content-Type", "application/json")]
                 (SubscribedBody true "Subscription successful"
                    (toLowerCase (trim "a@b.co")) (JArr [JStr "no"; JStr " se"]))), w')
    ∧ (subscribers <$> loaded w') = Some [stored]
    ∧ countries stored = JArr [JStr "no"; JStr " se"]
    ∧ toUpperCase "no" ≠ "no" ∧ trim " se" ≠ " se".
Proof.
  apply (C3_json_text_is_not_normalized Sample.JSON_parse Sample.URLSearchParams
           Sample.form_post (Sample.world NoFile)
           [("email", JStr "a@b.co"); ("countries", JStr Sample.lower_array_text)]
           "a@b.co" Sample.lower_array_text); reflexivity.
Defined.

Lemma sample_config_listing :
  ∃ entries,
    Countries.handler Sample.localeCompare (Countries.Config Sample.config)
    = mkResponse 200
        [("Content-Type", "application/json");
         ("Cache-Control", "public, max-age=3600");
         ("Access-Control-Allow-Origin", "*")]
        (CountriesBody entries)
    ∧ entries ≡ₚ map Countries.emit (List.filter Countries.not_disabled Sample.config)
    ∧ (∀ e, e ∈ entries ↔
            ∃ c, c ∈ Sample.config ∧ Countries.enabled c ≠ Some (JBool false)
                 ∧ e = mkEntry (Countries.code c) (Countries.name c) true)
    ∧ Forall (λ e, entry_enabled e = true) entries
    ∧ StronglySorted
        (λ a b, Sample.localeCompare (entry_name a) (entry_name b) ≤ 0) entries.
Proof.
  apply (proj1 (C5_countries_listing Sample.localeCompare
                  sample_compare_flip sample_compare_trans)
           (Countries.Config Sample.config) Sample.config).
  reflexivity.
Defined.

(** The two listings, computed. *)
Example sample_listing :
  Countries.handler Sample.localeCompare (Countries.Config Sample.config)
  = mkResponse 200
      [("Content-Type", "application/json");
       ("Cache-Control", "public, max-age=3600");
       ("Access-Control-Allow-Origin", "*")]
      (CountriesBody [mkEntry "DE" "Germany" true; mkEntry "NO" "Norway" true;
                      mkEntry "SE" "Sweden" true]).
Proof. reflexivity. Qed.

Example default_listing_names :
  match response_body (Countries.handler Sample.localeCompare Countries.Missing) with
  | CountriesBody entries => map entry_name entries
  | _ => []
  end
  = ["Austria"; "Belgium"; "Czech Republic"; "Denmark"; "European Union";
     "Finland"; "France"; "Germany"; "Hungary"; "Ireland"; "Italy";
     "Netherlands"; "Norway"; "Poland"; "Portugal"; "Spain"; "Sweden";
     "Switzerland"].
Proof. reflexivity. Qed.

(** * Further properties of the code *)

(** ** Strings under a character map *)

Section CharMaps.

Variable f : ascii → ascii.
Hypothesis f_space : ∀ c, is_space (f c) = is_space c.

Local Arguments is_space : simpl never.

Lemma trimStart_map (s : string) :
  trimStart (map_chars f s) = map_chars f (trimStart s).
Proof.
  induction s as [|c s IH]; simpl; [done|].
  rewrite f_space. by destruct (is_space c).
Qed.

Lemma trimEnd_map (s : string) :
  trimEnd (map_chars f s) = map_chars f (trimEnd s).
Proof.
  induction s as [|c s IH]; simpl; [done|].
  rewrite IH, f_space.
  destruct (trimEnd s); simpl; [by destruct (is_space c) | done].
Qed.

Lemma trim_map (s : string) : trim (map_chars f s) = map_chars f (trim s).
Proof. unfold trim. by rewrite trimStart_map, trimEnd_map. Qed.

Lemma deriv_map (r : regex) (c : ascii) :
  class_invariant f r →
  deriv (f c) r = deriv c r ∧ class_invariant f (deriv c r).
Proof.
  induction r as [| |p|r1 IH1 r2 IH2|r1 IH1 r2 IH2|r IH]; simpl; intros Hr.
  - done.
  - done.
  - rewrite Hr. by destruct (p c).
  - destruct Hr as [H1 H2]. destruct (IH1 H1) as [-> ?], (IH2 H2) as [-> ?].
    by destruct (nullable r1).
  - destruct Hr as [H1 H2]. by destruct (IH1 H1) as [-> ?], (IH2 H2) as [-> ?].
  - by destruct (IH Hr) as [-> ?].
Qed.

Lemma test_map (r : regex) (s : string) :
  class_invariant f r → test r (map_chars f s) = test r s.
Proof.
  revert r. induction s as [|c s IH]; intros r Hr; simpl; [done|].
  destruct (deriv_map r c Hr) as [-> Hd]. by apply IH.
Qed.

End CharMaps.

Section LowerCase.

Lemma lower_char_idem (c : ascii) : lower_char (lower_char c) = lower_char c.
Proof. by destruct c as [[] [] [] [] [] [] [] []]. Qed.

Lemma is_space_lower_char (c : ascii) : is_space (lower_char c) = is_space c.
Proof. by destruct c as [[] [] [] [] [] [] [] []]. Qed.

Lemma not_space_or_at_lower_char (c : ascii) :
  Subscribe.not_space_or_at (lower_char c) = Subscribe.not_space_or_at c.
Proof. by destruct c as [[] [] [] [] [] [] [] []]. Qed.

Lemma eqb_lower_char (c d : ascii) :
  d = "@"%char ∨ d = "."%char → Ascii.eqb (lower_char c) d = Ascii.eqb c d.
Proof. intros [-> | ->]; by destruct c as [[] [] [] [] [] [] [] []]. Qed.

Lemma toLowerCase_idem (s : string) : toLowerCase (toLowerCase s) = toLowerCase s.
Proof.
  unfold toLowerCase. induction s as [|c s IH]; simpl; [done|].
  by rewrite lower_char_idem, IH.
Qed.

Lemma emailRegex_lower_invariant : class_invariant lower_char Subscribe.emailRegex.
Proof.
  unfold Subscribe.emailRegex, Plus, Lit. simpl.
  repeat split; intros c;
    first [apply not_space_or_at_lower_char | apply eqb_lower_char; auto].
Qed.

End LowerCase.

(** ** More on the store *)

Section StoreCoverage.
Import Subscribe.

Lemma findIndex_first {A} (p : A → bool) (l : list A) (i : nat) (x : A) :
  l !! i = Some x → p x = true → Forall (λ y, p y = false) (take i l) →
  findIndex p l = Z.of_nat i.
Proof.
  revert i. induction l as [|y l IH]; intros [|i] Hl Hx Hbefore; simpl in *;
    try discriminate.
  - injection Hl as ->. by rewrite Hx.
  - inversion Hbefore as [|? ? Hy Hrest]; subst. rewrite Hy.
    rewrite (IH i Hl Hx Hrest).
    destruct (Z.ltb_spec (Z.of_nat i) 0); lia.
Qed.

(** What a save does, in full. *)
Lemma save_cases (new : Subscriber) (w : World) :
  saveSubscriber new w = (Normal false, w)
  ∨ ∃ d, loaded w = Some d ∧
      ( (Forall (λ s, same_email new s = false) (subscribers d)
         ∧ saveSubscriber new w
           = (Normal (joinable (countries new)),
              written w (mkDocument (subscribers d ++ [new])
                           (Some (clock w (clock_reads w))) (version d)) 1))
      ∨ (∃ i existing old nw,
           subscribers d !! i = Some existing
           ∧ same_email new existing = true
           ∧ Forall (λ s, same_email new s = false) (take i (subscribers d))
           ∧ spread (countries existing) = Normal old
           ∧ spread (countries new) = Normal nw
           ∧ saveSubscriber new w
             = (Normal (joinable (countries new)),
                written w
                  (mkDocument
                     (<[i := mkSubscriber (email existing)
                               (JArr (new_Set (old ++ nw)))
                               (created_at existing)
                               (Some (clock w (clock_reads w))) true]>
                        (subscribers d))
                     (Some (clock w (S (clock_reads w)))) (version d)) 2)) ).
Proof.
  destruct (loaded w) as [d|] eqn:Hd.
  2:{ left. unfold loaded in Hd.
      destruct (disk w) as [| |[raw|data]] eqn:Hdisk; try done.
      by apply (save_unparseable new w raw). }
  destruct (Z.lt_ge_cases (findIndex (same_email new) (subscribers d)) 0) as [Hlt|Hge].
  - right. exists d. split; [done|]. left.
    split; [by apply findIndex_none | by apply save_insert].
  - destruct (findIndex_some _ _ Hge) as (existing & Hex & Hp & Hbefore).
    set (i := Z.to_nat (findIndex (same_email new) (subscribers d))) in *.
    assert (Hi : findIndex (same_email new) (subscribers d) = Z.of_nat i) by lia.
    destruct (spread (countries existing)) as [old|] eqn:Hold.
    2:{ left. apply (save_not_iterable new existing w d i); auto. }
    destruct (spread (countries new)) as [nw|] eqn:Hnw.
    2:{ left. apply (save_not_iterable new existing w d i); auto. }
    right. exists d. split; [done|]. right.
    exists i, existing, old, nw. repeat split; try done.
    by apply save_merge.
Qed.

Lemma save_true_joinable (new : Subscriber) (w w' : World) :
  saveSubscriber new w = (Normal true, w') → joinable (countries new) = true.
Proof.
  intros Hsave.
  destruct (save_cases new w)
    as [E | (d & _ & [[_ E] | (i & ex & old & nw & _ & _ & _ & _ & _ & E)])];
    rewrite E in Hsave; congruence.
Qed.

Lemma save_true_is_array (new : Subscriber) (w w' : World) :
  saveSubscriber new w = (Normal true, w') → is_array (countries new) = true.
Proof. intros Hsave. eapply joinable_is_array, save_true_joinable, Hsave. Qed.

Lemma sameValueZero_eq (a b : jsval) : sameValueZero a b = true → a = b.
Proof.
  destruct a, b; simpl; try discriminate; intros H.
  - done.
  - by apply Bool.eqb_prop in H as ->.
  - by apply Z.eqb_eq in H as ->.
  - by apply String.eqb_eq in H as ->.
Qed.

Lemma Set_add_keeps (seen : list jsval) (x y : jsval) :
  y ∈ seen ∨ y = x → y ∈ Set_add seen x.
Proof.
  unfold Set_add. destruct (existsb (sameValueZero x) seen) eqn:E.
  - intros [H | ->]; [done|].
    apply existsb_exists in E as (z & Hz & Hs).
    apply sameValueZero_eq in Hs as ->. by apply list_elem_of_In.
  - rewrite elem_of_app, list_elem_of_singleton. tauto.
Qed.

Lemma fold_Set_add_keeps (xs seen : list jsval) (y : jsval) :
  y ∈ seen ∨ y ∈ xs → y ∈ fold_left Set_add xs seen.
Proof.
  revert seen. induction xs as [|x xs IH]; intros seen; simpl.
  - rewrite elem_of_nil. tauto.
  - rewrite elem_of_cons. intros H. apply IH.
    destruct H as [H | [-> | H]]; [left| left |by right];
      apply Set_add_keeps; auto.
Qed.

Lemma new_Set_keeps (xs : list jsval) (y : jsval) : y ∈ xs → y ∈ new_Set xs.
Proof. intros H. apply fold_Set_add_keeps. by right. Qed.

Lemma fold_Set_add_fresh (xs acc : list string) :
  NoDup acc →
  ∃ fresh, fold_left Set_add (map JStr xs) (map JStr acc) = map JStr (acc ++ fresh)
           ∧ NoDup (acc ++ fresh)
           ∧ ∀ c, c ∈ fresh ↔ c ∈ xs ∧ c ∉ acc.
Proof.
  revert acc. induction xs as [|x xs IH]; intros acc Hacc; simpl.
  - exists []. rewrite app_nil_r. split; [done|]. split; [done|].
    intros c. rewrite elem_of_nil. tauto.
  - unfold Set_add at 2. rewrite existsb_sameValueZero_str.
    destruct (bool_decide_reflect (x ∈ acc)) as [Hin|Hnin].
    + destruct (IH acc Hacc) as (fresh & E & Hnd & Hfresh).
      exists fresh. split; [done|]. split; [done|]. intros c.
      rewrite Hfresh, elem_of_cons. split; [tauto|].
      intros [[-> | H] Hc]; [done | tauto].
    + change [JStr x] with (map JStr [x]). rewrite <- map_app.
      destruct (IH (acc ++ [x])) as (fresh & E & Hnd & Hfresh).
      { apply NoDup_app. split; [done|]. split; [|apply NoDup_singleton].
        intros y Hy ->%list_elem_of_singleton. done. }
      exists (x :: fresh). rewrite <- app_assoc in E, Hnd. simpl in E, Hnd.
      split; [done|]. split; [done|]. intros c.
      rewrite !elem_of_cons, Hfresh, elem_of_app, list_elem_of_singleton.
      destruct (decide (c = x)) as [-> | Hne]; tauto.
Qed.

Lemma fold_Set_add_distinct (old acc : list string) :
  NoDup (acc ++ old) →
  fold_left Set_add (map JStr old) (map JStr acc) = map JStr (acc ++ old).
Proof.
  revert acc. induction old as [|x old IH]; intros acc Hnd; simpl.
  - by rewrite app_nil_r.
  - unfold Set_add at 2. rewrite existsb_sameValueZero_str.
    apply NoDup_app in Hnd as Hparts. destruct Hparts as (_ & Hdisj & _).
    destruct (bool_decide_reflect (x ∈ acc)) as [Hin|Hnin].
    { exfalso. apply (Hdisj x Hin). left. }
    change [JStr x] with (map JStr [x]). rewrite <- map_app.
    rewrite IH; rewrite <- app_assoc; done.
Qed.

Lemma new_Set_old_then_fresh (old nw : list string) :
  NoDup old →
  ∃ fresh, new_Set (map JStr old ++ map JStr nw) = map JStr (old ++ fresh)
           ∧ NoDup (old ++ fresh)
           ∧ ∀ c, c ∈ fresh ↔ c ∈ nw ∧ c ∉ old.
Proof.
  intros Hold. unfold new_Set. rewrite fold_left_app.
  pose proof (fold_Set_add_distinct old [] Hold) as E0. simpl in E0. rewrite E0.
  by apply fold_Set_add_fresh.
Qed.

(** X5. A save that returns false has changed nothing (not the file,
    not the clock), provided the countries of the new subscriber can be
    joined for the log line: they are an array, and no element of it,
    at any depth, is an object with a [toString] entry of its own.
    (Without the proviso the file is written before [join] throws.) *)
Theorem failed_save_changes_nothing (new : Subscriber) (w w' : World) :
  joinable (countries new) = true →
  saveSubscriber new w = (Normal false, w') →
  w' = w.
Proof.
  intros Harr Hsave.
  destruct (save_cases new w) as [E | (d & _ & [[_ E] | (i & ex & old & nw & _ & _ & _ & _ & _ & E)])];
    rewrite E in Hsave; [congruence| |]; rewrite Harr in Hsave; discriminate.
Qed.

Lemma save_true_when_arrays (new : Subscriber) (w : World) (d : Document) :
  loaded w = Some d →
  Forall (λ s, is_array (countries s) = true) (subscribers d) →
  joinable (countries new) = true →
  ∃ w', saveSubscriber new w = (Normal true, w').
Proof.
  intros Hd Harr Hnew.
  destruct (save_cases new w)
    as [E | (d0 & Hd0 & [[_ E] | (i & ex & old & nw & _ & _ & _ & _ & _ & E)])];
    [|rewrite E, Hnew; by eexists..].
  exfalso.
  destruct (countries new) as [| | | |nw|] eqn:Hc; try discriminate.
  destruct (Z.lt_ge_cases (findIndex (same_email new) (subscribers d)) 0) as [Hlt|Hge].
  - rewrite (save_insert new w d Hd Hlt), Hc, Hnew in E. discriminate.
  - assert (Hex : Exists (λ s, same_email new s = true) (subscribers d)).
    { destruct (findIndex_some _ _ Hge) as (x & Hx & Hp & _).
      apply Exists_exists. exists x. split; [by eapply list_elem_of_lookup_2 | done]. }
    destruct (save_merge_first_match new w d nw Hd Hex Harr Hc)
      as (i & existing & old & _ & _ & _ & _ & E').
    rewrite E', Hc, Hnew in E. discriminate.
Qed.

(** X6. A save succeeds whenever the file is absent or holds a
    document of the stored shape (an object whose [subscribers] is an
    array of records with a string [email]), the stored countries are
    arrays and the new countries can be joined for the log line: they
    are an array, and no element of it, at any depth, is an object with
    a [toString] entry of its own.  The stored countries are arrays
    again afterwards, so that the next such save succeeds too. *)
Theorem save_succeeds (new : Subscriber) (w : World) (d : Document) :
  loaded w = Some d →
  Forall (λ s, is_array (countries s) = true) (subscribers d) →
  joinable (countries new) = true →
  ∃ w' d', saveSubscriber new w = (Normal true, w')
           ∧ loaded w' = Some d'
           ∧ Forall (λ s, is_array (countries s) = true) (subscribers d').
Proof.
  intros Hd Harr Hnew.
  destruct (save_true_when_arrays new w d Hd Harr Hnew) as (w' & Hsave).
  destruct (save_true_inv new w w' Hsave) as (d0 & Hd0 & Hcases).
  assert (d0 = d) as -> by congruence.
  exists w'. destruct Hcases as [[_ ->] | (i & ex & old & nw & _ & _ & _ & _ & _ & ->)];
    eexists; (split; [done|]); (split; [reflexivity|]); simpl.
  - apply Forall_app. split; [done|].
    repeat constructor. by apply joinable_is_array.
  - by apply Forall_insert.
Qed.

Lemma existsb_eqb_elem_of (c : string) (l : list string) :
  existsb (String.eqb c) l = bool_decide (c ∈ l).
Proof.
  induction l as [|y l IH]; simpl; [done|].
  rewrite IH. destruct (String.eqb_spec c y) as [->|Hne]; simpl.
  - symmetry. apply bool_decide_eq_true. left.
  - apply bool_decide_ext. rewrite elem_of_cons. tauto.
Qed.

Lemma filter_filter_comm {A} (p q : A → bool) (l : list A) :
  List.filter p (List.filter q l) = List.filter q (List.filter p l).
Proof.
  induction l as [|x l IH]; simpl; [done|].
  destruct (p x) eqn:Hp, (q x) eqn:Hq; simpl; rewrite ?Hp, ?Hq, IH; done.
Qed.

Lemma filter_filter_absorb {A} (p q : A → bool) (l : list A) :
  (∀ x, p x = true → q x = true) →
  List.filter p (List.filter q l) = List.filter p l.
Proof.
  intros Hpq. induction l as [|x l IH]; simpl; [done|].
  destruct (q x) eqn:Hq; simpl.
  - by rewrite IH.
  - destruct (p x) eqn:Hp; [|done]. apply Hpq in Hp. congruence.
Qed.

Lemma first_occurrences_filter (p : string → bool) (l : list string) :
  List.filter p (first_occurrences l) = first_occurrences (List.filter p l).
Proof.
  induction l as [|c l IH]; simpl; [done|].
  destruct (p c) eqn:Hp; simpl.
  - f_equal. by rewrite filter_filter_comm, IH.
  - rewrite <- IH. apply filter_filter_absorb.
    intros x Hx. destruct (String.eqb_spec x c) as [->|]; [congruence|done].
Qed.

Lemma not_among_snoc (acc : list string) (x : string) (xs : list string) :
  not_among (acc ++ [x]) xs
  = List.filter (λ c, negb (String.eqb c x)) (not_among acc xs).
Proof.
  unfold not_among. induction xs as [|y xs IH]; simpl; [done|].
  rewrite existsb_app. simpl. rewrite orb_false_r.
  destruct (existsb (String.eqb y) acc); simpl; [by rewrite IH|].
  destruct (String.eqb y x); simpl; by rewrite IH.
Qed.

(** Adding strings to a [Set] appends, in the order in which they
    first occur, those it does not hold yet. *)
Lemma fold_Set_add_first_occurrences (xs acc : list string) :
  fold_left Set_add (map JStr xs) (map JStr acc)
  = map JStr (acc ++ first_occurrences (not_among acc xs)).
Proof.
  revert acc. induction xs as [|x xs IH]; intros acc; simpl.
  - by rewrite app_nil_r.
  - unfold Set_add at 2. rewrite existsb_sameValueZero_str.
    unfold not_among. simpl. fold (not_among acc xs).
    rewrite existsb_eqb_elem_of.
    destruct (bool_decide (x ∈ acc)); simpl; [apply IH|].
    change [JStr x] with (map JStr [x]). rewrite <- map_app, IH.
    rewrite not_among_snoc, <- first_occurrences_filter, <- app_assoc. done.
Qed.

Lemma new_Set_first_occurrences (old nw : list string) :
  NoDup old →
  new_Set (map JStr old ++ map JStr nw)
  = map JStr (old ++ first_occurrences (not_among old nw)).
Proof.
  intros Hold. unfold new_Set. rewrite fold_left_app.
  pose proof (fold_Set_add_distinct old [] Hold) as E0. simpl in E0. rewrite E0.
  apply fold_Set_add_first_occurrences.
Qed.

(** X7. On a merge of string country codes into a duplicate-free stored
    list, the stored codes keep their places and the new codes that
    were not stored yet follow, each once, in the order of their first
    occurrence among the new ones; when every new code was stored
    already, the stored list does not change. *)
Theorem merge_appends_new_countries
    (new existing : Subscriber) (w : World) (d : Document) (i : nat)
    (old nw : list string) :
  loaded w = Some d →
  subscribers d !! i = Some existing →
  same_email new existing = true →
  Forall (λ s, same_email new s = false) (take i (subscribers d)) →
  countries existing = JArr (map JStr old) →
  NoDup old →
  countries new = JArr (map JStr nw) →
  ∃ w' d' merged fresh,
    saveSubscriber new w = (Normal true, w')
    ∧ loaded w' = Some d'
    ∧ subscribers d' !! i = Some merged
    ∧ countries merged = JArr (map JStr (old ++ fresh))
    ∧ fresh = first_occurrences (not_among old nw)
    ∧ NoDup (old ++ fresh)
    ∧ (∀ c, c ∈ fresh ↔ c ∈ nw ∧ c ∉ old)
    ∧ ((∀ c, c ∈ nw → c ∈ old) → countries merged = countries existing).
Proof.
  intros Hd Hlook Hsame Hbefore Hold Hnd Hnew.
  pose proof (findIndex_first _ _ _ _ Hlook Hsame Hbefore) as Hidx.
  pose proof (save_merge new existing w d i (map JStr old) (map JStr nw)
                Hd Hidx Hlook) as Hsave.
  rewrite Hold, Hnew in Hsave. specialize (Hsave eq_refl eq_refl).
  rewrite joinable_strings in Hsave. simpl in Hsave.
  destruct (new_Set_old_then_fresh old nw Hnd) as (fresh & E & Hnd' & Hfresh).
  assert (Hord : fresh = first_occurrences (not_among old nw)).
  { rewrite (new_Set_first_occurrences old nw Hnd) in E.
    assert (Hinj : Inj (=) (=) JStr) by (by intros ?? [= ->]).
    apply (list_fmap_eq_inj JStr Hinj) in E.
    symmetry. by apply app_inv_head in E. }
  rewrite E in Hsave.
  eexists _, _, _, fresh. split; [exact Hsave|]. split; [reflexivity|]. simpl.
  split; [apply list_lookup_insert_eq; by eapply lookup_lt_Some|]. simpl.
  split; [done|]. split; [done|]. split; [done|]. split; [done|].
  intros Hsub. rewrite Hold. do 2 f_equal.
  destruct fresh as [|c fresh]; [by rewrite app_nil_r|].
  destruct (Hfresh c) as [H _]. destruct H as [H1 H2]; [left|].
  by apply Hsub in H1.
Qed.


End StoreCoverage.

(** ** The handler, case by case *)

Section HandlerCases.
Import Subscribe.

Variable JSON_parse : string → option jsval.
Variable URLSearchParams : string → list (string * string).

Local Abbreviation parseBody := (Subscribe.parseBody JSON_parse URLSearchParams).
Local Abbreviation normalize_countries := (Subscribe.normalize_countries JSON_parse).
Local Abbreviation handler := (Subscribe.handler JSON_parse URLSearchParams).

Local Arguments isValidEmail : simpl never.
Local Arguments falsy : simpl never.
Local Arguments saveSubscriber : simpl never.

Lemma save_returns (new : Subscriber) (w : World) :
  ∃ saved w', saveSubscriber new w = (Normal saved, w').
Proof.
  unfold saveSubscriber, try_catch.
  match goal with |- context [match ?m w with _ => _ end] => destruct (m w) as [[b|] w'] end;
    eauto.
Qed.

Lemma after_created_at_disk (created_raw : option jsval) (w : World) :
  disk (after_created_at created_raw w) = disk w
  ∧ clock (after_created_at created_raw w) = clock w.
Proof. unfold after_created_at. by destruct (falsy created_raw). Qed.

(** Every run of the handler ends in one of six ways. *)
Lemma handler_cases (event : Event) (w : World) :
  ∃ r w', handler event w = (Normal r, w') ∧
    ( (httpMethod event ≠ "POST" ∧ w' = w
       ∧ r = respond 405 (ErrorBody "Method not allowed"))
    ∨ (httpMethod event = "POST" ∧ disk w' = disk w
       ∧ ( r = respond 500 (ErrorBody "Internal server error")
         ∨ r = respond 400 (ErrorBody "Invalid email address")
         ∨ r = respond 400 (ErrorBody "At least one country must be selected")))
    ∨ (httpMethod event = "POST"
       ∧ ∃ b raw cr created_raw cs saved,
           parseBody (body event) (headers event !! "content-type") = Normal b
           ∧ member b "email" = Normal (Some (JStr raw))
           ∧ isValidEmail (Some (JStr (toLowerCase (trim raw)))) = true
           ∧ member b "countries" = Normal cr
           ∧ member b "created_at" = Normal created_raw
           ∧ normalize_countries cr = Normal cs
           ∧ no_countries cs = Normal false
           ∧ saveSubscriber
               (mkSubscriber (toLowerCase (trim raw)) cs
                  (created_at_of created_raw w) None true)
               (after_created_at created_raw w)
             = (Normal saved, w')
           ∧ r = if saved
                 then subscribed (mkSubscriber (toLowerCase (trim raw)) cs
                                    (created_at_of created_raw w) None true)
                 else respond 500 (ErrorBody "Failed to save subscription")) ).
Proof.
  destruct (String.eqb_spec (httpMethod event) "POST") as [Hpost|Hpost].
  2:{ eexists _, _. split; [|left; split; [done|split; reflexivity]].
      unfold Subscribe.handler. by destruct (String.eqb_spec (httpMethod event) "POST"). }
  destruct (parseBody (body event) (headers event !! "content-type")) as [b|] eqn:Hbody.
  2:{ eexists _, _. split; [|right; left; split; [done|split; [|left; reflexivity]]].
      - unfold Subscribe.handler. rewrite Hpost. simpl.
        unfold try_catch, mbind, JS_bind, lift. by rewrite Hbody.
      - done. }
  destruct (member b "email") as [field|] eqn:Hfield.
  2:{ eexists _, _. split; [|right; left; split; [done|split; [|left; reflexivity]]].
      - unfold Subscribe.handler. rewrite Hpost. simpl.
        unfold try_catch, mbind, JS_bind, lift. by rewrite Hbody, Hfield.
      - done. }
  destruct (member_defined b "email" "countries" field Hfield) as [cr Hcr].
  destruct (member_defined b "email" "created_at" field Hfield) as [created_raw Hcreated].
  destruct (normalize_email field) as [email|] eqn:Hemail.
  2:{ eexists _, _. split; [|right; left; split; [done|split; [|left; reflexivity]]].
      - unfold Subscribe.handler. rewrite Hpost. simpl.
        unfold try_catch, mbind, JS_bind, lift. by rewrite Hbody, Hfield, Hemail.
      - done. }
  destruct (falsy (JStr <$> email) || negb (isValidEmail (JStr <$> email))) eqn:Hbad.
  { eexists _, _. split.
    - by apply (handler_invalid_email _ _ event w b field email created_raw).
    - right; left. split; [done|]. split; [apply after_created_at_disk|]. right; left. done. }
  apply orb_false_iff in Hbad as [_ Hvalid]. apply negb_false_iff in Hvalid.
  assert (∃ raw, field = Some (JStr raw) ∧ email = Some (toLowerCase (trim raw)))
    as (raw & -> & ->).
  { destruct field as [[| | |raw| |]|]; simpl in Hemail; try discriminate;
      injection Hemail as <-; try discriminate. by exists raw. }
  simpl in Hvalid.
  destruct (normalize_countries cr) as [cs|] eqn:Hcs.
  2:{ exists (respond 500 (ErrorBody "Internal server error")),
             (after_created_at created_raw w).
      split; [|right; left; split; [done|split; [|left; reflexivity]]].
      - unfold Subscribe.handler. rewrite Hpost. simpl.
        unfold try_catch, mbind, JS_bind, lift. rewrite Hbody, Hfield. simpl.
        rewrite Hcr, Hcreated. unfold after_created_at.
        destruct (falsy created_raw); simpl;
          rewrite Hvalid, (valid_not_falsy _ Hvalid); simpl; by rewrite Hcs.
      - apply after_created_at_disk. }
  destruct (no_countries cs) as [[|]|] eqn:Hnone.
  - eexists _, _. split.
    + by apply (handler_no_countries _ _ event w b raw cr created_raw cs).
    + right; left. split; [done|]. split; [apply after_created_at_disk|]. by right; right.
  - destruct (save_returns (mkSubscriber (toLowerCase (trim raw)) cs
                              (created_at_of created_raw w) None true)
                (after_created_at created_raw w)) as (saved & w' & Hsave).
    exists (if saved
            then subscribed (mkSubscriber (toLowerCase (trim raw)) cs
                               (created_at_of created_raw w) None true)
            else respond 500 (ErrorBody "Failed to save subscription")), w'.
    split.
    + rewrite (handler_reaches_save _ _ event w b raw cr created_raw cs) by done.
      rewrite Hsave. by destruct saved.
    + right; right. split; [done|].
      by exists b, raw, cr, created_raw, cs, saved.
  - exists (respond 500 (ErrorBody "Internal server error")),
           (after_created_at created_raw w).
    split; [|right; left; split; [done|split; [|left; reflexivity]]].
    + unfold Subscribe.handler. rewrite Hpost. simpl.
      unfold try_catch, mbind, JS_bind, lift. rewrite Hbody, Hfield. simpl.
      rewrite Hcr, Hcreated. unfold after_created_at.
      destruct (falsy created_raw); simpl;
        rewrite Hvalid, (valid_not_falsy _ Hvalid); simpl; by rewrite Hcs, Hnone.
    + apply after_created_at_disk.
Qed.


(** X1. The handler never throws: it always answers, with status 200,
    400, 405 or 500, and an error body is one of five fixed messages. *)
Theorem handler_always_answers (event : Event) (w : World) :
  ∃ r w',
    handler event w = (Normal r, w')
    ∧ statusCode r ∈ [200; 400; 405; 500]
    ∧ ∀ msg, response_body r = ErrorBody msg →
        msg ∈ ["Method not allowed"; "Invalid email address";
               "At least one country must be selected";
               "Failed to save subscription"; "Internal server error"].
Proof.
  destruct (handler_cases event w) as (r & w' & Hrun & Hcases).
  exists r, w'. split; [done|].
  destruct Hcases as [(_ & _ & ->) | [(_ & _ & [-> | [-> | ->]])
    | (_ & b & raw & cr & created_raw & cs & saved & _ & _ & _ & _ & _ & _ & _ & _ & ->)]];
    try destruct saved; simpl;
    (split; [rewrite !elem_of_cons; tauto|]);
    intros msg [= <-] || intros msg [=]; rewrite !elem_of_cons; tauto.
Qed.

(** X2. Unless the handler answers 200 or [Failed to save
    subscription], it has not touched the subscriber file. *)
Theorem rejection_keeps_store (event : Event) (w w' : World) (r : Response) :
  handler event w = (Normal r, w') →
  statusCode r ≠ 200 →
  response_body r ≠ ErrorBody "Failed to save subscription" →
  disk w' = disk w.
Proof.
  intros Hrun Hstatus Hbody.
  destruct (handler_cases event w) as (r0 & w0 & Hrun0 & Hcases).
  rewrite Hrun in Hrun0. injection Hrun0 as <- <-.
  destruct Hcases as [(_ & -> & _) | [(_ & Hdisk & _)
    | (_ & b & raw & cr & created_raw & cs & saved & _ & _ & _ & _ & _ & _ & _ & _ & ->)]];
    [done..|].
  by destruct saved.
Qed.

(** X3. A 200 answer means the subscription is on file: the file then
    parses to a document with an active record for the answer's email
    (compared in lowercase) whose countries include every country of
    the answer. *)
Theorem success_is_stored (event : Event) (w w' : World) (r : Response) :
  handler event w = (Normal r, w') →
  statusCode r = 200 →
  ∃ e nw d' rec stored,
    response_body r = SubscribedBody true "Subscription successful" e (JArr nw)
    ∧ disk w' = File (Parsed d')
    ∧ rec ∈ subscribers d'
    ∧ toLowerCase (email rec) = e
    ∧ countries rec = JArr stored
    ∧ (∀ c, c ∈ nw → c ∈ stored)
    ∧ active rec = true.
Proof.
  intros Hrun Hstatus.
  destruct (handler_cases event w) as (r0 & w0 & Hrun0 & Hcases).
  rewrite Hrun in Hrun0. injection Hrun0 as <- <-.
  destruct Hcases as [(_ & _ & ->) | [(_ & _ & [-> | [-> | ->]])
    | (_ & b & raw & cr & created_raw & cs & saved & _ & _ & _ & _ & _ & _ & _ & Hsave & ->)]];
    try discriminate.
  destruct saved; [|discriminate].
  pose proof (save_true_is_array _ _ _ Hsave) as Harr. simpl in Harr.
  destruct cs as [| | | |nw|]; try discriminate.
  destruct (save_true_inv _ _ _ Hsave) as (d & Hd & Hcases).
  destruct Hcases as [[_ ->] | (i & existing & old & nw' & Hlook & Hm & _ & Hold & Hnw & ->)].
  - eexists _, nw, _, _, nw. split; [reflexivity|]. split; [reflexivity|]. simpl.
    split; [rewrite elem_of_app, list_elem_of_singleton; by right|]. simpl.
    split; [apply toLowerCase_idem|]. done.
  - simpl in Hnw. injection Hnw as <-.
    eexists _, nw, _, _, _. split; [reflexivity|]. split; [reflexivity|]. simpl.
    split; [eapply list_elem_of_lookup_2, list_lookup_insert_eq; by eapply lookup_lt_Some|].
    simpl. unfold same_email in Hm. simpl in Hm. apply String.eqb_eq in Hm.
    split; [by rewrite Hm, toLowerCase_idem|].
    split; [reflexivity|]. split; [|done].
    intros c Hc. apply new_Set_keeps. rewrite elem_of_app. by right.
Qed.


Lemma after_created_at_loaded (created_raw : option jsval) (w : World) :
  loaded (after_created_at created_raw w) = loaded w.
Proof. unfold after_created_at, loaded. by destruct (falsy created_raw). Qed.

Lemma handler_countries_throw (event : Event) (w : World) (b : jsval)
    (e : string) (cr created_raw : option jsval) :
  httpMethod event = "POST" →
  parseBody (body event) (headers event !! "content-type") = Normal b →
  member b "email" = Normal (Some (JStr e)) →
  isValidEmail (Some (JStr (toLowerCase (trim e)))) = true →
  member b "countries" = Normal cr →
  member b "created_at" = Normal created_raw →
  normalize_countries cr = Thrown →
  handler event w
  = (Normal (respond 500 (ErrorBody "Internal server error")),
     after_created_at created_raw w).
Proof.
  intros Hpost Hbody Hfield Hvalid Hcr Hcreated Hcs.
  unfold Subscribe.handler. rewrite Hpost. simpl.
  unfold try_catch, mbind, JS_bind, lift. rewrite Hbody, Hfield. simpl.
  rewrite Hcr, Hcreated. unfold after_created_at.
  destruct (falsy created_raw); simpl;
    rewrite Hvalid, (valid_not_falsy _ Hvalid); simpl; by rewrite Hcs.
Qed.

(** X4. The email of a 200 answer is the body's email trimmed and
    lowercased: it is its own trimmed and lowercased form, and it
    matches the accepted pattern. *)
Theorem answered_email_is_normalized
    (event : Event) (w w' : World) (r : Response)
    (ok : bool) (msg e : string) (cs : jsval) :
  handler event w = (Normal r, w') →
  response_body r = SubscribedBody ok msg e cs →
  trim e = e ∧ toLowerCase e = e ∧ email_pattern e.
Proof.
  intros Hrun Hbody.
  destruct (handler_cases event w) as (r0 & w0 & Hrun0 & Hcases).
  rewrite Hrun in Hrun0. injection Hrun0 as <- <-.
  destruct Hcases as [(_ & _ & ->) | [(_ & _ & [-> | [-> | ->]])
    | (_ & b & raw & cr & created_raw & cs' & saved & _ & _ & Hvalid & _ & _ & _ & _ & _ & ->)]];
    try discriminate.
  destruct saved; [|discriminate]. simpl in Hbody. injection Hbody as _ _ <- _.
  split; [|split].
  - unfold toLowerCase.
    rewrite (trim_map lower_char is_space_lower_char). by rewrite trim_idem.
  - apply toLowerCase_idem.
  - by apply isValidEmail_pattern.
Qed.

(** X9. A countries text that [JSON.parse] turns into something that
    is not an array (a number, say) passes the emptiness check; the new
    record is then written to the file, and yet the handler answers 500
    [Failed to save subscription]. *)
Theorem non_array_countries_are_written
    (event : Event) (w : World) (b : jsval) (raw text : string)
    (v : jsval) (d : Document) :
  httpMethod event = "POST" →
  parseBody (body event) (headers event !! "content-type") = Normal b →
  member b "email" = Normal (Some (JStr raw)) →
  isValidEmail (Some (JStr (toLowerCase (trim raw)))) = true →
  member b "countries" = Normal (Some (JStr text)) →
  JSON_parse text = Some v →
  is_array v = false →
  no_countries v = Normal false →
  loaded w = Some d →
  records_for (toLowerCase (trim raw)) (subscribers d) = [] →
  ∃ w' rec,
    handler event w
    = (Normal (respond 500 (ErrorBody "Failed to save subscription")), w')
    ∧ (subscribers <$> loaded w') = Some (subscribers d ++ [rec])
    ∧ email rec = toLowerCase (trim raw)
    ∧ countries rec = v.
Proof.
  intros Hpost Hbody Hemail Hvalid Hcountries Hparse Harr Hnone Hd Hfree.
  destruct (member_defined b "email" "created_at" _ Hemail) as [created_raw Hc].
  rewrite (handler_reaches_save _ _ event w b raw (Some (JStr text)) created_raw v);
    try done.
  2:{ by apply normalize_countries_parsed. }
  set (sub := mkSubscriber (toLowerCase (trim raw)) v (created_at_of created_raw w) None true).
  rewrite (save_insert sub (after_created_at created_raw w) d).
  - simpl. rewrite (not_array_not_joinable v Harr). by eexists _, sub.
  - by rewrite after_created_at_loaded.
  - apply findIndex_none. by apply (records_for_none sub).
Qed.

Lemma get_set_prop (props : list (string * jsval)) (k k' : string) (v : jsval) :
  get_prop (set_prop props k v) k'
  = if String.eqb k k' then Some v else get_prop props k'.
Proof.
  induction props as [|[k0 v0] props IH]; simpl; [done|].
  destruct (String.eqb_spec k0 k) as [-> | Hne]; simpl.
  - by destruct (String.eqb k k').
  - rewrite IH. destruct (String.eqb_spec k0 k') as [-> | Hne'].
    + destruct (String.eqb_spec k k'); [congruence | done].
    + done.
Qed.

Lemma form_fold_lookup (params : list (string * string))
    (props : list (string * jsval)) (key : string) :
  key ≠ "__proto__" →
  get_prop (fold_left assign_param params props) key
  = match last_value key params with
    | Some v => Some (JStr v)
    | None => get_prop props key
    end.
Proof.
  intros Hkey.
  revert props. induction params as [|[k v] params IH]; intros props; simpl; [done|].
  rewrite IH. unfold assign_param, last_value. simpl.
  destruct (String.eqb_spec k "__proto__") as [-> | Hk].
  - by destruct (String.eqb_spec "__proto__" key).
  - rewrite get_set_prop. destruct (String.eqb k key); [|done].
    rewrite last_cons. by destruct (last (List.filter _ params)).
Qed.

(** X10. Reading [email], [countries] or [created_at] (the keys the
    handler reads) of a form-encoded body gives the value of the last
    pair with that key, as a string, and [undefined] when no pair has
    the key. *)
Theorem form_body_last_value_wins
    (text : string) (contentType : option string) :
  text ≠ EmptyString →
  type_includes contentType "application/json" = false →
  type_includes contentType "application/x-www-form-urlencoded" = true →
  ∃ props,
    parseBody (Some text) contentType = Normal (JObj props)
    ∧ ∀ key, key ∈ ["email"; "countries"; "created_at"] →
             member (JObj props) key
             = Normal (JStr <$> last_value key (URLSearchParams text)).
Proof.
  intros Htext Hjson Hform.
  exists (fold_left assign_param (URLSearchParams text) []).
  split.
  - unfold Subscribe.parseBody. rewrite Hjson, Hform. by destruct text.
  - intros key Hkey. simpl. rewrite form_fold_lookup.
    + by destruct (last_value key (URLSearchParams text)).
    + intros ->. rewrite !elem_of_cons, elem_of_nil in Hkey.
      by destruct Hkey as [? | [? | [? | []]]].
Qed.

(** X11. Under the JSON content type, a non-empty body that
    [JSON.parse] rejects, or parses to [null], is answered 500
    [Internal server error], and the world is left as it was. *)
Theorem malformed_json_is_internal_error (event : Event) (w : World) (text : string) :
  httpMethod event = "POST" →
  body event = Some text →
  text ≠ EmptyString →
  type_includes (headers event !! "content-type") "application/json" = true →
  JSON_parse text = None ∨ JSON_parse text = Some JNull →
  handler event w
  = (Normal (respond 500 (ErrorBody "Internal server error")), w).
Proof.
  intros Hpost Hbody Htext Hjson Hparse.
  unfold Subscribe.handler. rewrite Hpost. simpl.
  unfold try_catch, mbind, JS_bind, lift, Subscribe.parseBody. rewrite Hbody, Hjson.
  unfold parse_json. destruct text; [done|].
  by destruct Hparse as [-> | ->].
Qed.

Lemma upper_each_strings (strs : list string) :
  upper_each (map JStr strs) = Normal (map JStr (map toUpperCase strs)).
Proof.
  induction strs as [|s strs IH]; simpl; [done|]. by rewrite IH.
Qed.

Lemma upper_each_throws (items : list jsval) :
  Exists (λ v, ∀ s, v ≠ JStr s) items → upper_each items = Thrown.
Proof.
  induction 1 as [v items Hv | v items _ IH]; simpl.
  - destruct v; try done. by destruct (Hv s).
  - destruct v; try done. by rewrite IH.
Qed.

(** X12. When the body gives the countries as an array, an element
    that is not a string makes the handler answer 500 [Internal server
    error] without touching the file. *)
Theorem non_string_country_is_internal_error
    (event : Event) (w : World) (b : jsval) (raw : string) (items : list jsval) :
  httpMethod event = "POST" →
  parseBody (body event) (headers event !! "content-type") = Normal b →
  member b "email" = Normal (Some (JStr raw)) →
  isValidEmail (Some (JStr (toLowerCase (trim raw)))) = true →
  member b "countries" = Normal (Some (JArr items)) →
  Exists (λ v, ∀ s, v ≠ JStr s) items →
  ∃ w', handler event w
        = (Normal (respond 500 (ErrorBody "Internal server error")), w')
        ∧ disk w' = disk w.
Proof.
  intros Hpost Hbody Hemail Hvalid Hcountries Hbad.
  destruct (member_defined b "email" "created_at" _ Hemail) as [created_raw Hc].
  exists (after_created_at created_raw w). split; [|apply after_created_at_disk].
  apply (handler_countries_throw event w b raw (Some (JArr items)) created_raw);
    try done.
  simpl. by rewrite upper_each_throws.
Qed.

(** X13. When the body gives the countries as a non-empty array of
    strings and the store is usable, the handler answers 200 with those
    strings uppercased, in the same order and number (they are not
    trimmed, and empty ones are kept). *)
Theorem array_countries_are_uppercased
    (event : Event) (w : World) (b : jsval) (raw : string)
    (strs : list string) (d : Document) :
  httpMethod event = "POST" →
  parseBody (body event) (headers event !! "content-type") = Normal b →
  member b "email" = Normal (Some (JStr raw)) →
  isValidEmail (Some (JStr (toLowerCase (trim raw)))) = true →
  member b "countries" = Normal (Some (JArr (map JStr strs))) →
  strs ≠ [] →
  loaded w = Some d →
  Forall (λ s, is_array (countries s) = true) (subscribers d) →
  ∃ w',
    handler event w
    = (Normal (mkResponse 200 [("Content-Type", "application/json")]
                 (SubscribedBody true "Subscription successful"
                    (toLowerCase (trim raw))
                    (JArr (map JStr (map toUpperCase strs))))), w').
Proof.
  intros Hpost Hbody Hemail Hvalid Hcountries Hne Hd Harr.
  destruct (member_defined b "email" "created_at" _ Hemail) as [created_raw Hc].
  rewrite (handler_reaches_save _ _ event w b raw (Some (JArr (map JStr strs)))
             created_raw (JArr (map JStr (map toUpperCase strs)))); try done.
  - set (sub := mkSubscriber _ _ _ _ _).
    destruct (save_true_when_arrays sub (after_created_at created_raw w) d)
      as (w' & ->);
      [by rewrite after_created_at_loaded | done | apply joinable_strings |].
    by exists w'.
  - simpl. by rewrite upper_each_strings.
  - destruct strs; [done|]. reflexivity.
Qed.


Lemma trimStart_spaces (s : string) :
  all_chars is_space s = true → trimStart s = EmptyString.
Proof.
  induction s as [|c s IH]; simpl; [done|].
  intros [Hc Hs]%andb_true_iff. rewrite Hc. by apply IH.
Qed.

Lemma split_of_separators (s : string) :
  all_chars (λ c, Ascii.eqb c "," || is_space c) s = true →
  Forall (λ piece, all_chars is_space piece = true) (split "," s).
Proof.
  induction s as [|c s IH]; simpl; [by repeat constructor|].
  intros [Hc Hs]%andb_true_iff. specialize (IH Hs).
  destruct (Ascii.eqb c ","); [by constructor|]. simpl in Hc.
  destruct (split "," s) as [|piece pieces].
  { constructor; [|constructor]. simpl. by rewrite Hc. }
  inversion IH; subst. constructor; [|done]. simpl. by rewrite Hc.
Qed.

Lemma split_countries_of_separators (s : string) :
  all_chars (λ c, Ascii.eqb c "," || is_space c) s = true →
  split_countries s = [].
Proof.
  intros H%split_of_separators. unfold split_countries.
  induction H as [|piece pieces Hp _ IH]; simpl; [done|].
  unfold trim at 1. by rewrite (trimStart_spaces piece Hp).
Qed.

(** X14. A countries text made only of commas and white space (the
    empty text included), which [JSON.parse] rejects, leaves no country:
    the handler answers 400 [At least one country must be selected] and
    does not touch the file. *)
Theorem blank_countries_text_is_rejected
    (event : Event) (w : World) (b : jsval) (raw text : string) :
  httpMethod event = "POST" →
  parseBody (body event) (headers event !! "content-type") = Normal b →
  member b "email" = Normal (Some (JStr raw)) →
  isValidEmail (Some (JStr (toLowerCase (trim raw)))) = true →
  member b "countries" = Normal (Some (JStr text)) →
  JSON_parse text = None →
  all_chars (λ c, Ascii.eqb c "," || is_space c) text = true →
  ∃ w', handler event w
        = (Normal (respond 400 (ErrorBody "At least one country must be selected")), w')
        ∧ disk w' = disk w.
Proof.
  intros Hpost Hbody Hemail Hvalid Hcountries Hparse Hblank.
  destruct (member_defined b "email" "created_at" _ Hemail) as [created_raw Hc].
  exists (after_created_at created_raw w). split; [|apply after_created_at_disk].
  apply (handler_no_countries _ _ event w b raw (Some (JStr text)) created_raw (JArr []));
    try done.
  rewrite normalize_countries_split by done.
  by rewrite split_countries_of_separators.
Qed.

(** X15. When [JSON.parse] rejects the countries text, the countries
    are its comma-separated pieces, trimmed and uppercased, without the
    empty ones: each is trimmed, uppercase and non-empty. *)
Theorem comma_separated_countries_are_normalized (text : string) :
  JSON_parse text = None →
  ∃ codes,
    normalize_countries (Some (JStr text)) = Normal (JArr (map JStr codes))
    ∧ codes = List.filter (λ c, negb (is_empty c))
                (map (λ piece, toUpperCase (trim piece)) (split "," text))
    ∧ Forall (λ c, trim c = c ∧ toUpperCase c = c ∧ c ≠ EmptyString) codes.
Proof.
  intros Hparse. exists (split_countries text).
  split; [by apply normalize_countries_split|]. split; [done|].
  apply split_countries_normalized.
Qed.

Lemma handler_email_throws (event : Event) (w : World) (b : jsval)
    (field : option jsval) :
  httpMethod event = "POST" →
  parseBody (body event) (headers event !! "content-type") = Normal b →
  member b "email" = Normal field →
  normalize_email field = Thrown →
  handler event w = (Normal (respond 500 (ErrorBody "Internal server error")), w).
Proof.
  intros Hpost Hbody Hfield Hemail.
  unfold Subscribe.handler. rewrite Hpost. simpl.
  unfold try_catch, mbind, JS_bind, lift. by rewrite Hbody, Hfield, Hemail.
Qed.

Lemma handler_accepts_email (event : Event) (w : World) (b : jsval) (raw : string) :
  httpMethod event = "POST" →
  parseBody (body event) (headers event !! "content-type") = Normal b →
  member b "email" = Normal (Some (JStr raw)) →
  isValidEmail (Some (JStr (toLowerCase (trim raw)))) = true →
  ∃ r w', handler event w = (Normal r, w')
          ∧ response_body r ≠ ErrorBody "Invalid email address".
Proof.
  intros Hpost Hbody Hfield Hvalid.
  destruct (member_defined b "email" "countries" _ Hfield) as [cr Hcr].
  destruct (member_defined b "email" "created_at" _ Hfield) as [created_raw Hcreated].
  destruct (normalize_countries cr) as [cs|] eqn:Hcs.
  2:{ eexists _, _. split; [|shelve].
      by apply (handler_countries_throw event w b raw cr created_raw). }
  destruct (no_countries cs) as [[|]|] eqn:Hnone.
  - eexists _, _. split; [|shelve].
    by apply (handler_no_countries _ _ event w b raw cr created_raw cs).
  - destruct (save_returns (mkSubscriber (toLowerCase (trim raw)) cs
                              (created_at_of created_raw w) None true)
                (after_created_at created_raw w)) as (saved & w' & Hsave).
    exists (if saved
            then subscribed (mkSubscriber (toLowerCase (trim raw)) cs
                               (created_at_of created_raw w) None true)
            else respond 500 (ErrorBody "Failed to save subscription")), w'.
    split; [|by destruct saved].
    rewrite (handler_reaches_save _ _ event w b raw cr created_raw cs) by done.
    rewrite Hsave. by destruct saved.
  - exists (respond 500 (ErrorBody "Internal server error")),
           (after_created_at created_raw w).
    split; [|done].
    unfold Subscribe.handler. rewrite Hpost. simpl.
    unfold try_catch, mbind, JS_bind, lift. rewrite Hbody, Hfield. simpl.
    rewrite Hcr, Hcreated. unfold after_created_at.
    destruct (falsy created_raw); simpl;
      rewrite Hvalid, (valid_not_falsy _ Hvalid); simpl; by rewrite Hcs, Hnone.
  Unshelve. all: done.
Qed.

(** C4 (fails on the code).  An email that is present and is neither
    [null] nor a string (a number, a boolean, an array, an object) is
    invalid for [isValidEmail], whose [typeof] test rejects it; but the
    handler calls [trim] on it before it validates, the call throws,
    and the answer is 500 [Internal server error], not 400.

    The rest of the claim holds.  [isValidEmail] accepts exactly the
    strings of the form part [@] part [.] part, each part non-empty and
    free of white space and of [@]: a string without [@], or with no
    dot after an [@], is rejected.  When the email is absent (or
    [null]) the handler answers 400 [Invalid email address]; when it is
    a string the handler validates its trimmed, lowercased form [s]:
    it answers 400 [Invalid email address] if [s] fails the check, and
    something else if [s] passes; a rejection leaves the file alone. *)
Theorem C4_non_string_email_is_internal_error (s : string) :
  (isValidEmail (Some (JStr s)) = true ↔ email_pattern s)
  ∧ (mem_char "@" s = false → isValidEmail (Some (JStr s)) = false)
  ∧ (∀ pre post, s = pre +:+ "@" +:+ post → mem_char "." post = false →
       isValidEmail (Some (JStr s)) = false)
  ∧ (∀ (event : Event) (w : World) (b : jsval) (field : option jsval),
       httpMethod event = "POST" →
       parseBody (body event) (headers event !! "content-type") = Normal b →
       member b "email" = Normal field →
       (field = None ∨ field = Some JNull →
        ∃ w', handler event w
              = (Normal (respond 400 (ErrorBody "Invalid email address")), w')
              ∧ disk w' = disk w)
       ∧ (∀ raw, field = Some (JStr raw) → toLowerCase (trim raw) = s →
          (isValidEmail (Some (JStr s)) = false →
           ∃ w', handler event w
                 = (Normal (respond 400 (ErrorBody "Invalid email address")), w')
                 ∧ disk w' = disk w)
          ∧ (isValidEmail (Some (JStr s)) = true →
             ∃ r w', handler event w = (Normal r, w')
                     ∧ response_body r ≠ ErrorBody "Invalid email address"))
       ∧ (∀ v, field = Some v → v ≠ JNull → (∀ raw, v ≠ JStr raw) →
          isValidEmail (Some v) = false
          ∧ handler event w
            = (Normal (respond 500 (ErrorBody "Internal server error")), w))).
Proof.
  split; [apply isValidEmail_pattern|]. split; [|split].
  - intros Hno. apply not_true_is_false. intros Hv%isValidEmail_pattern.
    apply pattern_has_at in Hv. congruence.
  - intros pre post -> Hno. apply not_true_is_false.
    intros Hv%isValidEmail_pattern. apply pattern_dot_after_at in Hv. congruence.
  - intros event w b field Hpost Hbody Hfield.
    destruct (member_defined b "email" "created_at" field Hfield) as [created_raw Hc].
    split; [|split].
    + intros Habsent. exists (after_created_at created_raw w).
      split; [|apply after_created_at_disk].
      apply (handler_invalid_email _ _ event w b field None created_raw); try done.
      by destruct Habsent as [-> | ->].
    + intros raw -> <-. split.
      * intros Hinv. exists (after_created_at created_raw w).
        split; [|apply after_created_at_disk].
        apply (handler_invalid_email _ _ event w b (Some (JStr raw))
                 (Some (toLowerCase (trim raw))) created_raw); try done.
        simpl. rewrite Hinv. apply orb_true_r.
      * intros Hvalid. by apply (handler_accepts_email event w b raw).
    + intros v -> Hnull Hstr. split.
      * destruct v; try done. by destruct (Hstr s0).
      * apply (handler_email_throws event w b (Some v)); try done.
        destruct v; try done. by destruct (Hstr s0).
Qed.

End HandlerCases.

(** ** More on isValidEmail *)

Section EmailCoverage.
Import Subscribe.

Lemma count_char_app (c : ascii) (s1 s2 : string) :
  count_char c (s1 +:+ s2) = (count_char c s1 + count_char c s2)%nat.
Proof.
  induction s1 as [|d s1 IH]; [done|].
  change (((if Ascii.eqb d c then 1 else 0) + count_char c (s1 +:+ s2))%nat
          = ((if Ascii.eqb d c then 1 else 0) + count_char c s1 + count_char c s2)%nat).
  rewrite IH. lia.
Qed.

Lemma part_count_at (s : string) :
  all_chars not_space_or_at s = true → count_char "@" s = 0%nat.
Proof.
  induction s as [|c s IH]; simpl; [done|].
  intros [Hc Hs]%andb_true_iff. rewrite IH by done.
  unfold not_space_or_at in Hc. apply andb_true_iff in Hc as [_ Hc].
  by destruct (Ascii.eqb c "@").
Qed.

Lemma part_no_space (s : string) :
  all_chars not_space_or_at s = true →
  all_chars (λ c, negb (is_space c)) s = true.
Proof.
  induction s as [|c s IH]; simpl; [done|].
  intros [Hc Hs]%andb_true_iff. rewrite IH by done.
  unfold not_space_or_at in Hc. apply andb_true_iff in Hc as [Hc _].
  by rewrite Hc.
Qed.

(** X16. An email that [isValidEmail] accepts has exactly one [@] and
    no white space. *)
Theorem valid_email_has_one_at (s : string) :
  isValidEmail (Some (JStr s)) = true →
  count_char "@" s = 1%nat ∧ all_chars (λ c, negb (is_space c)) s = true.
Proof.
  intros (l & d & t & -> & [_ Hl] & [_ Hd] & [_ Ht])%isValidEmail_pattern.
  split.
  - rewrite !count_char_app.
    rewrite (part_count_at l), (part_count_at d), (part_count_at t) by done.
    reflexivity.
  - rewrite !all_chars_app.
    rewrite (part_no_space l), (part_no_space d), (part_no_space t) by done.
    reflexivity.
Qed.

Lemma isValidEmail_lower (s : string) :
  isValidEmail (Some (JStr (toLowerCase s))) = isValidEmail (Some (JStr s)).
Proof.
  unfold isValidEmail, toLowerCase.
  rewrite (test_map lower_char _ s emailRegex_lower_invariant).
  by destruct s.
Qed.

(** X17. The verdict of [isValidEmail] does not depend on letter case:
    two strings with the same lowercase form are both accepted or both
    rejected. *)
Theorem validity_ignores_case (s1 s2 : string) :
  toLowerCase s1 = toLowerCase s2 →
  isValidEmail (Some (JStr s1)) = isValidEmail (Some (JStr s2)).
Proof.
  intros H. by rewrite <- (isValidEmail_lower s1), <- (isValidEmail_lower s2), H.
Qed.

End EmailCoverage.

(** ** More on the countries endpoint *)

Section CountriesCoverage.
Import Countries.

Variable localeCompare : string → string → Z.

Hypothesis compare_flip : ∀ a b, 0 < localeCompare a b → localeCompare b a ≤ 0.
Hypothesis compare_trans :
  ∀ a b c, localeCompare a b ≤ 0 → localeCompare b c ≤ 0 → localeCompare a c ≤ 0.

Local Abbreviation by_name := (Countries.by_name localeCompare).
Local Abbreviation handler := (Countries.handler localeCompare).

Lemma Array_sort_of_sorted {A} (cmp : A → A → Z) (l : list A) :
  StronglySorted (λ a b, cmp a b ≤ 0) l → Array_sort cmp l = l.
Proof.
  induction 1 as [|x l Hl IH Hx]; simpl; [done|].
  rewrite IH. destruct Hx as [|y l Hy _]; simpl; [done|].
  destruct (Z.ltb_spec 0 (cmp x y)); [lia | done].
Qed.

Lemma filter_perm {A} (p : A → bool) (l1 l2 : list A) :
  l1 ≡ₚ l2 → List.filter p l1 ≡ₚ List.filter p l2.
Proof.
  induction 1 as [|x l1 l2 _ IH|x y l|l1 l2 l3 _ IH1 _ IH2]; simpl.
  - done.
  - destruct (p x); [by constructor | done].
  - destruct (p x), (p y); try done. apply Permutation_swap.
  - by etrans.
Qed.

Lemma sorted_perm_unique {A} (R : A → A → Prop) (l1 l2 : list A) :
  StronglySorted R l1 → StronglySorted R l2 → l1 ≡ₚ l2 →
  (∀ a b, a ∈ l1 → b ∈ l1 → R a b → R b a → a = b) →
  l1 = l2.
Proof.
  intros H1. revert l2. induction H1 as [|x l1 Hl1 IH Hx]; intros l2 H2 Hperm Hanti.
  - by apply Permutation_nil_l in Hperm.
  - destruct H2 as [|y l2 Hl2 Hy].
    { by apply Permutation_nil_r in Hperm. }
    assert (x = y) as <-.
    { assert (Hxin : x ∈ y :: l2) by (rewrite <- Hperm; left).
      assert (Hyin : y ∈ x :: l1) by (rewrite Hperm; left).
      apply elem_of_cons in Hxin as [?|Hxin]; [done|].
      apply elem_of_cons in Hyin as [?|Hyin]; [done|].
      rewrite Forall_forall in Hx, Hy.
      apply Hanti; [left | by right | by apply Hx | by apply Hy]. }
    f_equal. apply IH; [done | by eapply Permutation_cons_inv|].
    intros a b Ha Hb. apply Hanti; by right.
Qed.

(** X18. The listing is a fixed point of the endpoint: served its own
    answer as configuration, it returns the same answer. *)
Theorem listing_is_stable
    (config : ConfigFile) (countries : list Country) (entries : list CountryEntry) :
  load config = Normal countries →
  response_body (handler config) = CountriesBody entries →
  handler (Config (as_config entries)) = handler config.
Proof.
  intros Hload Hbody. unfold Countries.handler in *. rewrite Hload in *. simpl in *.
  injection Hbody as <-. do 2 f_equal.
  set (entries := Array_sort by_name (map emit (List.filter not_disabled countries))).
  assert (Hen : Forall (λ e, entry_enabled e = true) entries).
  { apply Forall_forall. intros e He. unfold entries in He.
    rewrite Array_sort_perm in He.
    apply list_elem_of_In, in_map_iff in He as (c & <- & _). done. }
  assert (map emit (List.filter not_disabled (as_config entries)) = entries) as ->.
  { clearbody entries. induction Hen as [|[c n en] es He _ IH]; simpl; [done|].
    simpl in He. subst en. simpl. unfold emit at 1. simpl. f_equal. exact IH. }
  apply Array_sort_of_sorted. by apply Array_sort_sorted.
Qed.

(** X19. The answer does not depend on the order of the configuration
    when no two listed entries have names that compare equal: two
    configurations that are rearrangements of each other get the same
    answer. *)
Theorem listing_ignores_input_order (countries1 countries2 : list Country) :
  countries1 ≡ₚ countries2 →
  (∀ a b, a ∈ List.filter not_disabled countries1 →
          b ∈ List.filter not_disabled countries1 →
          localeCompare (name a) (name b) ≤ 0 →
          localeCompare (name b) (name a) ≤ 0 → emit a = emit b) →
  handler (Config countries1) = handler (Config countries2).
Proof.
  intros Hperm Hdistinct. unfold Countries.handler. simpl. do 2 f_equal.
  apply (sorted_perm_unique (λ a b, by_name a b ≤ 0)).
  - by apply Array_sort_sorted.
  - by apply Array_sort_sorted.
  - rewrite !Array_sort_perm. by apply Permutation_map, filter_perm.
  - intros a b Ha Hb Hab Hba. rewrite Array_sort_perm in Ha, Hb.
    apply list_elem_of_In, in_map_iff in Ha as (ca & <- & Ha).
    apply list_elem_of_In, in_map_iff in Hb as (cb & <- & Hb).
    apply Hdistinct; [by apply list_elem_of_In..| done | done].
Qed.

End CountriesCoverage.

(** ** The form script *)

Section ClientCoverage.
Import Client.

Variable form_reset : Page → Page.
Variable ToString : jsval → string.
Variable null_member_message : string.

Local Abbreviation handleSubmit_after :=
  (Client.handleSubmit_after ToString null_member_message).
Local Abbreviation resetForm := (Client.resetForm form_reset).
Local Abbreviation step := (Client.step form_reset ToString null_member_message).
Local Abbreviation run := (Client.run form_reset ToString null_member_message).

Lemma client_regex_is_server_regex : Client.emailRegex = Subscribe.emailRegex.
Proof. reflexivity. Qed.

Lemma validateEmail_verdict (p : Page) :
  (validateEmail p).1
  = Subscribe.isValidEmail (Some (JStr (trim (email_value p)))).
Proof.
  unfold validateEmail, Subscribe.isValidEmail. rewrite client_regex_is_server_regex.
  destruct (is_empty (trim (email_value p))); [done|].
  by destruct (test Subscribe.emailRegex (trim (email_value p))).
Qed.

(** X20. The form and the server agree on emails: [validateEmail]
    accepts the typed value exactly when the server's check accepts the
    email that the form would send (the trimmed value), after the
    server has trimmed and lowercased it. *)
Theorem form_and_server_agree_on_email (p : Page) :
  (validateEmail p).1
  = Subscribe.isValidEmail
      (Some (JStr (toLowerCase (trim (trim (email_value p)))))).
Proof. by rewrite validateEmail_verdict, trim_idem, isValidEmail_lower. Qed.

Lemma shown_add (classes : gset string) : ¬ shown (class_add "hidden" classes).
Proof.
  unfold shown, class_add. intros H. apply H.
  apply elem_of_union_l. by apply elem_of_singleton.
Qed.

Lemma shown_remove (classes : gset string) : shown (class_remove "hidden" classes).
Proof.
  unfold shown, class_remove. intros [_ H]%elem_of_difference.
  apply H. by apply elem_of_singleton.
Qed.

Lemma one_panel_showSuccess (p : Page) : one_panel (showSuccess p).
Proof.
  right; left. unfold showSuccess. simpl.
  split; [apply shown_add|]. split; [apply shown_remove | apply shown_add].
Qed.

Lemma one_panel_showError (message : string) (p : Page) :
  one_panel (showError message p).
Proof.
  right; right. unfold showError. simpl.
  split; [apply shown_add|]. split; [apply shown_add | apply shown_remove].
Qed.

(** The three class lists that decide which panel is shown. *)
Lemma one_panel_same (p q : Page) :
  form_classes q = form_classes p →
  success_classes q = success_classes p →
  error_classes q = error_classes p →
  one_panel p → one_panel q.
Proof. unfold one_panel. by intros -> -> ->. Qed.

Lemma one_panel_setSubmitLoading (loading : bool) (p : Page) :
  one_panel p → one_panel (setSubmitLoading loading p).
Proof. by apply one_panel_same. Qed.

Lemma one_panel_validateEmail (p : Page) :
  one_panel p → one_panel (validateEmail p).2.
Proof.
  apply one_panel_same; unfold validateEmail;
    destruct (is_empty _); try done; by destruct (negb _).
Qed.

Lemma one_panel_validateCountries (p : Page) :
  one_panel p → one_panel (validateCountries p).2.
Proof.
  apply one_panel_same; unfold validateCountries; by destruct (_ <? _)%nat.
Qed.

Lemma one_panel_setAllCountries (selected : bool) (p : Page) :
  one_panel p → one_panel (setAllCountries selected p).
Proof. apply one_panel_same; by destruct selected. Qed.

Lemma one_panel_handleCountryChange (p : Page) :
  one_panel p → one_panel (handleCountryChange p).
Proof.
  apply one_panel_same; unfold handleCountryChange; by destruct (_ <=? _)%nat.
Qed.

Lemma one_panel_flip (index : nat) (p : Page) :
  one_panel p → one_panel (flip_checkbox index p).
Proof.
  apply one_panel_same; unfold flip_checkbox; by destruct (_ !! _).
Qed.

Lemma one_panel_resetForm (p : Page) : one_panel (resetForm p).
Proof.
  left. unfold Client.resetForm. simpl.
  split; [apply shown_remove|]. split; apply shown_add.
Qed.

Lemma one_panel_before (time : string) (p : Page) :
  one_panel p →
  one_panel match handleSubmit_before time p with
            | NotSent p' | Sent _ p' => p'
            end.
Proof.
  intros Hp. unfold handleSubmit_before.
  destruct (match bot_field p with Some v => negb (is_empty v) | None => false end).
  { apply one_panel_showSuccess. }
  destruct (validateEmail p) as [okE p1] eqn:E1.
  destruct (validateCountries p1) as [okC p2] eqn:E2.
  assert (Hp2 : one_panel p2).
  { pose proof (one_panel_validateCountries p1) as H. rewrite E2 in H. apply H.
    pose proof (one_panel_validateEmail p Hp) as H1. by rewrite E1 in H1. }
  destruct (negb okE || negb okC); [done|].
  by apply one_panel_setSubmitLoading.
Qed.

Lemma one_panel_after (reply : Reply) (p : Page) :
  one_panel (handleSubmit_after reply p).
Proof.
  unfold Client.handleSubmit_after. apply one_panel_setSubmitLoading.
  destruct reply as [message | ok status json]; [apply one_panel_showError|].
  destruct ok; [apply one_panel_showSuccess|].
  destruct (member _ _); apply one_panel_showError.
Qed.

Lemma one_panel_step (e : Event) (s : Session) :
  one_panel s.1 → one_panel (step e s).1.
Proof.
  destruct s as [p sent]. simpl. intros Hp.
  destruct e; unfold Client.step.
  - pose proof (one_panel_before time p Hp) as H.
    by destruct (handleSubmit_before time p).
  - exact (one_panel_after reply p).
  - exact (one_panel_validateEmail p Hp).
  - revert Hp. by apply one_panel_same.
  - exact (one_panel_handleCountryChange _ (one_panel_flip index p Hp)).
  - exact (one_panel_setAllCountries true p Hp).
  - exact (one_panel_setAllCountries false p Hp).
  - exact (one_panel_resetForm p).
  - exact (one_panel_resetForm p).
Qed.

(** X21. Whatever the user and the network do, exactly one of the
    form, the success message and the error message is shown, once it
    was so at the start. *)
Theorem one_panel_is_kept (events : list Event) (s : Session) :
  one_panel s.1 → one_panel (run events s).1.
Proof.
  revert s. induction events as [|e events IH]; intros s Hs; simpl; [done|].
  apply IH. by apply one_panel_step.
Qed.


Lemma validateEmail_frame (p : Page) :
  email_value (validateEmail p).2 = email_value p
  ∧ checkboxes (validateEmail p).2 = checkboxes p
  ∧ bot_field (validateEmail p).2 = bot_field p.
Proof.
  unfold validateEmail. destruct (is_empty _); [done|]. by destruct (negb _).
Qed.

Lemma validateCountries_frame (p : Page) :
  email_value (validateCountries p).2 = email_value p
  ∧ checkboxes (validateCountries p).2 = checkboxes p.
Proof. unfold validateCountries. by destruct (_ <? _)%nat. Qed.

Lemma validateCountries_verdict (p : Page) :
  (validateCountries p).1 = true ↔ getSelectedCountries p ≠ [].
Proof.
  unfold validateCountries, minCountries.
  destruct (getSelectedCountries p) as [|c cs]; simpl; [by split|].
  by split.
Qed.

(** What [handleSubmit] has done when it first returns or awaits. *)
Lemma handleSubmit_before_cases (time : string) (p : Page) :
  (match bot_field p with Some v => negb (is_empty v) | None => false end = true
   ∧ handleSubmit_before time p = NotSent (showSuccess p))
  ∨ (match bot_field p with Some v => negb (is_empty v) | None => false end = false
     ∧ ((validateEmail p).1 = false ∨ getSelectedCountries p = [])
     ∧ ∃ p', handleSubmit_before time p = NotSent p')
  ∨ (match bot_field p with Some v => negb (is_empty v) | None => false end = false
     ∧ (validateEmail p).1 = true
     ∧ getSelectedCountries p ≠ []
     ∧ ∃ p', handleSubmit_before time p
             = Sent (mkRequest "/.netlify/functions/subscribe" "POST"
                       [("Content-Type", "application/json")]
                       (JObj [("email", JStr (trim (email_value p)));
                              ("countries", JArr (map JStr (getSelectedCountries p)));
                              ("created_at", JStr time)]))
                    p'
             ∧ submit_disabled p' = true).
Proof.
  unfold handleSubmit_before.
  destruct (match bot_field p with Some v => negb (is_empty v) | None => false end);
    [by left|right].
  destruct (validateEmail_frame p) as (Hv & Hc & _).
  destruct (validateEmail p) as [okE p1] eqn:E1. simpl in Hv, Hc.
  destruct (validateCountries_frame p1) as (Hv2 & Hc2).
  pose proof (validateCountries_verdict p1) as Hverdict.
  destruct (validateCountries p1) as [okC p2] eqn:E2. simpl in Hv2, Hc2, Hverdict.
  assert (Hsel1 : getSelectedCountries p1 = getSelectedCountries p)
    by (unfold getSelectedCountries; by rewrite Hc).
  assert (Hsel2 : getSelectedCountries p2 = getSelectedCountries p)
    by (unfold getSelectedCountries; by rewrite Hc2, Hc).
  rewrite Hsel1 in Hverdict.
  destruct okE; simpl.
  - destruct okC; simpl.
    + right. split; [done|]. split; [done|]. split; [by apply Hverdict|].
      exists (setSubmitLoading true p2). split; [|done].
      simpl. by rewrite Hsel2, Hv2, Hv.
    + left. split; [done|]. split; [|by eexists]. right.
      destruct (getSelectedCountries p) as [|c cs]; [done|].
      assert (false = true) by (by apply Hverdict). discriminate.
  - left. split; [done|]. split; [by left | by eexists].
Qed.

(** X22. [handleSubmit] sends a request exactly when the honeypot is
    empty, the email passes [validateEmail] and at least one country is
    checked; the request is then a JSON POST to the subscribe function
    with the trimmed email, the checked codes in page order and the
    time, and the submit button is disabled.  With the honeypot filled
    nothing is sent and the success message is shown. *)
Theorem submit_sends_when_valid (time : string) (p : Page) :
  ((∃ v, bot_field p = Some v ∧ v ≠ EmptyString) →
   handleSubmit_before time p = NotSent (showSuccess p))
  ∧ ((∃ request p', handleSubmit_before time p = Sent request p')
     ↔ (bot_field p = None ∨ bot_field p = Some EmptyString)
       ∧ (validateEmail p).1 = true
       ∧ getSelectedCountries p ≠ [])
  ∧ (∀ request p',
       handleSubmit_before time p = Sent request p' →
       request = mkRequest "/.netlify/functions/subscribe" "POST"
                   [("Content-Type", "application/json")]
                   (JObj [("email", JStr (trim (email_value p)));
                          ("countries", JArr (map JStr (getSelectedCountries p)));
                          ("created_at", JStr time)])
       ∧ submit_disabled p' = true).
Proof.
  assert (Hpot : match bot_field p with Some v => negb (is_empty v) | None => false end
                 = false
                 ↔ bot_field p = None ∨ bot_field p = Some EmptyString).
  { destruct (bot_field p) as [[|c v]|]; simpl;
      (split; [intros; first [discriminate | auto]
              | intros [H|H]; first [discriminate | reflexivity]]). }
  destruct (handleSubmit_before_cases time p)
    as [[Hb E] | [(Hb & Hbad & p' & E) | (Hb & Hv & Hc & p' & E & Hdis)]];
    rewrite E.
  - split; [done|]. split; [|intros ? ? [=]].
    split; [by intros (? & ? & [=])|]. intros (Hb' & _). apply Hpot in Hb'. congruence.
  - split.
    { intros (v & Hv & Hne). rewrite Hv in Hb. by destruct v. }
    split; [|intros ? ? [=]].
    split; [by intros (? & ? & [=])|]. intros (_ & Hv & Hc).
    destruct Hbad; congruence.
  - split.
    { intros (v & Hv' & Hne). rewrite Hv' in Hb. by destruct v. }
    split.
    + split; [|by eauto]. intros _. split; [by apply Hpot | done].
    + by intros ? ? [= <- <-].
Qed.

Lemma setSubmitLoading_false (p : Page) :
  submit_disabled (setSubmitLoading false p) = false
  ∧ ¬ shown (btn_loading_classes (setSubmitLoading false p))
  ∧ shown (btn_text_classes (setSubmitLoading false p))
  ∧ form_classes (setSubmitLoading false p) = form_classes p
  ∧ success_classes (setSubmitLoading false p) = success_classes p
  ∧ error_classes (setSubmitLoading false p) = error_classes p
  ∧ error_details (setSubmitLoading false p) = error_details p.
Proof.
  unfold setSubmitLoading. simpl.
  split; [done|]. split; [apply shown_add|]. split; [apply shown_remove|]. done.
Qed.

(** X23. Once the answer is there, the submit button is enabled again
    and the spinner is hidden, whatever the answer; the form is hidden;
    an [ok] answer shows the success message, any other answer or a
    network failure shows the error message, with the [error] text of
    the answer's body when it has one. *)
Theorem reply_settles_the_form (reply : Reply) (p : Page) :
  submit_disabled (handleSubmit_after reply p) = false
  ∧ ¬ shown (btn_loading_classes (handleSubmit_after reply p))
  ∧ shown (btn_text_classes (handleSubmit_after reply p))
  ∧ ¬ shown (form_classes (handleSubmit_after reply p))
  ∧ (shown (success_classes (handleSubmit_after reply p))
     ↔ ∃ status json, reply = Answer true status json)
  ∧ (shown (error_classes (handleSubmit_after reply p))
     ↔ ¬ ∃ status json, reply = Answer true status json)
  ∧ (∀ status props message,
       reply = Answer false status (Some (JObj props)) →
       get_prop props "error" = Some (JStr message) →
       message ≠ EmptyString →
       error_details (handleSubmit_after reply p) = message).
Proof.
  unfold Client.handleSubmit_after.
  set (q := match reply with NetworkError _ => _ | Answer _ _ _ => _ end).
  destruct (setSubmitLoading_false q) as (Hd & Hl & Ht & -> & -> & -> & ->).
  split; [done|]. split; [done|]. split; [done|].
  assert (Hshape :
    (∃ status json, reply = Answer true status json ∧ q = showSuccess p)
    ∨ ((¬ ∃ status json, reply = Answer true status json)
       ∧ ∃ message, q = showError message p)).
  { unfold q. destruct reply as [message | [] status json].
    - right. split; [by intros (? & ? & [=])|]. by eexists.
    - left. by eexists _, _.
    - right. split; [by intros (? & ? & [=])|]. destruct (member _ _); by eexists. }
  destruct Hshape as [(status & json & Hr & ->) | (Hno & message & Hq)].
  - split; [unfold showSuccess; simpl; apply shown_add|].
    split; [split; [by eauto | intros _; unfold showSuccess; simpl; apply shown_remove]|].
    split.
    + split; [intros H; exfalso; revert H; unfold showSuccess; simpl; apply shown_add|].
      intros H. destruct H. by eauto.
    + intros ? ? ? E. rewrite E in Hr. discriminate.
  - rewrite Hq.
    split; [unfold showError; simpl; apply shown_add|].
    split.
    { split; [intros H; exfalso; revert H; unfold showError; simpl; apply shown_add|].
      intros H. by destruct Hno. }
    split; [split; [done | intros _; unfold showError; simpl; apply shown_remove]|].
    intros status props m E Hget Hm. rewrite <- Hq. unfold q. rewrite E. simpl.
    rewrite Hget. simpl. unfold shown_message. by destruct m.
Qed.

(** X24. [Select all] checks every box and [Select none] unchecks every
    box, without adding, dropping or reordering boxes: afterwards the
    selected codes are all the codes, or none. *)
Theorem select_all_and_none (p : Page) :
  getSelectedCountries (setAllCountries true p) = map value (checkboxes p)
  ∧ getSelectedCountries (setAllCountries false p) = []
  ∧ ∀ selected,
      map value (checkboxes (setAllCountries selected p)) = map value (checkboxes p).
Proof.
  unfold getSelectedCountries, setAllCountries. simpl.
  split; [|split].
  - induction (checkboxes p) as [|cb cbs IH]; simpl; [done|]. by rewrite IH.
  - induction (checkboxes p) as [|cb cbs IH]; simpl; [done|]. by rewrite IH.
  - intros selected. destruct selected; simpl;
      induction (checkboxes p) as [|cb cbs IH]; simpl; [done| |done|]; by rewrite IH.
Qed.

(** X25. After [resetForm] the form is shown and the two messages are
    hidden, both error texts are empty, the email input is not marked
    invalid and no country is checked, whatever [form.reset()] did. *)
Theorem reset_gives_a_clean_form (p : Page) :
  shown (form_classes (resetForm p))
  ∧ ¬ shown (success_classes (resetForm p))
  ∧ ¬ shown (error_classes (resetForm p))
  ∧ email_error (resetForm p) = EmptyString
  ∧ ("invalid" ∉ email_classes (resetForm p))
  ∧ countries_error (resetForm p) = EmptyString
  ∧ getSelectedCountries (resetForm p) = [].
Proof.
  unfold Client.resetForm. simpl.
  split; [apply shown_remove|]. split; [apply shown_add|]. split; [apply shown_add|].
  split; [done|]. split.
  { unfold class_remove. intros [_ H]%elem_of_difference. apply H.
    by apply elem_of_singleton. }
  split; [done|].
  unfold getSelectedCountries. simpl.
  induction (checkboxes (form_reset p)) as [|cb cbs IH]; simpl; [done|]. exact IH.
Qed.

End ClientCoverage.

(** ** The form, the subscribe function and the countries function
    together *)

Section EndToEnd.
Import Client.

Variable JSON_parse : string → option jsval.
Variable URLSearchParams : string → list (string * string).
Variable localeCompare : string → string → Z.

(** X26. What the form sends, the server accepts: if [handleSubmit]
    sends a request, the server receives a POST whose body parses to
    the request's payload, and the store is usable, then the handler
    answers 200 with the lowercased trimmed email and the checked codes
    uppercased. *)
Theorem sent_submission_is_accepted
    (time : string) (p p' : Page) (request : Request)
    (event : Subscribe.Event) (w : World) (d : Document) :
  handleSubmit_before time p = Sent request p' →
  Subscribe.httpMethod event = method request →
  Subscribe.parseBody JSON_parse URLSearchParams (Subscribe.body event)
    (Subscribe.headers event !! "content-type")
  = Normal (payload request) →
  loaded w = Some d →
  Forall (λ s, is_array (countries s) = true) (subscribers d) →
  ∃ w',
    Subscribe.handler JSON_parse URLSearchParams event w
    = (Normal (mkResponse 200 [("Content-Type", "application/json")]
                 (SubscribedBody true "Subscription successful"
                    (toLowerCase (trim (email_value p)))
                    (JArr (map JStr (map toUpperCase (getSelectedCountries p)))))),
       w').
Proof.
  intros Hsent Hmethod Hbody Hd Harr.
  destruct (handleSubmit_before_cases time p)
    as [[_ E] | [(_ & _ & q & E) | (_ & Hv & Hc & q & E & _)]];
    rewrite E in Hsent; try discriminate.
  injection Hsent as <- <-. simpl in Hmethod, Hbody.
  rewrite validateEmail_verdict in Hv.
  assert (Hvalid : Subscribe.isValidEmail
                     (Some (JStr (toLowerCase (trim (trim (email_value p)))))) = true)
    by (by rewrite trim_idem, isValidEmail_lower).
  rewrite (handler_reaches_save JSON_parse URLSearchParams event w _
             (trim (email_value p))
             (Some (JArr (map JStr (getSelectedCountries p))))
             (Some (JStr time))
             (JArr (map JStr (map toUpperCase (getSelectedCountries p))))
             Hmethod Hbody eq_refl Hvalid eq_refl eq_refl).
  - rewrite trim_idem.
    set (sub := mkSubscriber _ _ _ _ _).
    destruct (save_true_when_arrays sub
                (after_created_at (Some (JStr time)) w) d)
      as (w' & ->);
      [by rewrite after_created_at_loaded | done | apply joinable_strings |].
    by exists w'.
  - simpl. by rewrite upper_each_strings.
  - destruct (getSelectedCountries p); [done|]. reflexivity.
Qed.

Lemma sort_insert_map {A B} (f : A → B) (cmpA : A → A → Z) (cmpB : B → B → Z)
    (x : A) (l : list A) :
  (∀ a b, cmpB (f a) (f b) = cmpA a b) →
  sort_insert cmpB (f x) (map f l) = map f (sort_insert cmpA x l).
Proof.
  intros Hcmp. induction l as [|y l IH]; simpl; [done|].
  rewrite Hcmp. destruct (0 <? cmpA x y); simpl; [by rewrite IH | done].
Qed.

Lemma Array_sort_map {A B} (f : A → B) (cmpA : A → A → Z) (cmpB : B → B → Z)
    (l : list A) :
  (∀ a b, cmpB (f a) (f b) = cmpA a b) →
  Array_sort cmpB (map f l) = map f (Array_sort cmpA l).
Proof.
  intros Hcmp. induction l as [|x l IH]; simpl; [done|].
  by rewrite IH, (sort_insert_map f cmpA cmpB).
Qed.

(** X27. From the same array of countries, the form lists what the
    countries function lists, in the same order: the entries of the
    function's answer are those the form keeps, each emitted with
    [enabled: true]. *)
Theorem form_lists_what_the_function_lists (data : list Countries.Country) :
  response_body (Countries.handler localeCompare (Countries.Config data))
  = CountriesBody (map Countries.emit (loadCountries_list localeCompare data)).
Proof.
  unfold Countries.handler, loadCountries_list. simpl. f_equal.
  by apply (Array_sort_map Countries.emit).
Qed.

End EndToEnd.

(** ** The further statements at concrete inputs *)

Lemma demo_rejection_keeps_store :
  disk (Subscribe.handler Sample.JSON_parse Sample.URLSearchParams
          Sample.empty_post (Sample.world (File (Parsed Sample.document)))).2
  = File (Parsed Sample.document).
Proof.
  apply (rejection_keeps_store Sample.JSON_parse Sample.URLSearchParams
           Sample.empty_post (Sample.world (File (Parsed Sample.document))) _
           (Subscribe.respond 400 (ErrorBody "Invalid email address")));
    [reflexivity | discriminate | discriminate].
Defined.

Lemma demo_success_is_stored :
  ∃ e nw d' rec stored,
    response_body
      (mkResponse 200 [("Content-Type", "application/json")]
         (SubscribedBody true "Subscription successful" "a@b.co"
            (JArr [JStr "no"; JStr " se"])))
    = SubscribedBody true "Subscription successful" e (JArr nw)
    ∧ disk (Subscribe.handler Sample.JSON_parse Sample.URLSearchParams
              Sample.form_post (Sample.world NoFile)).2
      = File (Parsed d')
    ∧ rec ∈ subscribers d'
    ∧ toLowerCase (email rec) = e
    ∧ countries rec = JArr stored
    ∧ (∀ c, c ∈ nw → c ∈ stored)
    ∧ active rec = true.
Proof.
  apply (success_is_stored Sample.JSON_parse Sample.URLSearchParams
           Sample.form_post (Sample.world NoFile)); reflexivity.
Defined.

Lemma demo_answered_email_is_normalized :
  trim "a@b.co" = "a@b.co" ∧ toLowerCase "a@b.co" = "a@b.co"
  ∧ email_pattern "a@b.co".
Proof.
  eapply (answered_email_is_normalized Sample.JSON_parse Sample.URLSearchParams
           Sample.form_post (Sample.world NoFile) _
           (mkResponse 200 [("Content-Type", "application/json")]
              (SubscribedBody true "Subscription successful" "a@b.co"
                 (JArr [JStr "no"; JStr " se"])))
           true "Subscription successful" "a@b.co" (JArr [JStr "no"; JStr " se"]));
    reflexivity.
Defined.

Lemma demo_failed_save_changes_nothing :
  (Subscribe.saveSubscriber Sample.ann (Sample.world (File (Unparseable "{")))).2
  = Sample.world (File (Unparseable "{")).
Proof.
  apply (failed_save_changes_nothing Sample.ann); reflexivity.
Defined.

Lemma demo_save_succeeds :
  ∃ w' d',
    Subscribe.saveSubscriber Sample.ann_again
      (Sample.world (File (Parsed Sample.document)))
    = (Normal true, w')
    ∧ loaded w' = Some d'
    ∧ Forall (λ s, is_array (countries s) = true) (subscribers d').
Proof.
  apply (save_succeeds Sample.ann_again
           (Sample.world (File (Parsed Sample.document))) Sample.document).
  - reflexivity.
  - repeat constructor.
  - reflexivity.
Defined.

Lemma demo_merge_appends_new_countries :
  ∃ w' d' merged fresh,
    Subscribe.saveSubscriber Demo.ann_more
      (Sample.world (File (Parsed Sample.document)))
    = (Normal true, w')
    ∧ loaded w' = Some d'
    ∧ subscribers d' !! 1%nat = Some merged
    ∧ countries merged = JArr (map JStr (["NO"; "SE"] ++ fresh))
    ∧ fresh = ["FI"; "DK"]
    ∧ NoDup (["NO"; "SE"] ++ fresh)
    ∧ (∀ c, c ∈ fresh ↔ c ∈ ["SE"; "FI"; "DK"; "FI"] ∧ c ∉ ["NO"; "SE"])
    ∧ ((∀ c, c ∈ ["SE"; "FI"; "DK"; "FI"] → c ∈ ["NO"; "SE"]) →
       countries merged = countries Sample.ann).
Proof.
  apply (merge_appends_new_countries Demo.ann_more Sample.ann
           (Sample.world (File (Parsed Sample.document))) Sample.document 1
           ["NO"; "SE"] ["SE"; "FI"; "DK"; "FI"]).
  - reflexivity.
  - reflexivity.
  - reflexivity.
  - repeat constructor.
  - reflexivity.
  - apply (bool_decide_unpack _). vm_compute. exact I.
  - reflexivity.
Defined.


Lemma demo_non_array_countries_are_written :
  ∃ w' rec,
    Subscribe.handler Demo.JSON_parse Demo.URLSearchParams
      (Demo.form_post "email=a%40b.co&countries=5")
      (Sample.world (File (Parsed Sample.document)))
    = (Normal (Subscribe.respond 500 (ErrorBody "Failed to save subscription")), w')
    ∧ (subscribers <$> loaded w') = Some (subscribers Sample.document ++ [rec])
    ∧ email rec = toLowerCase (trim "a@b.co")
    ∧ countries rec = JNum 5.
Proof.
  apply (non_array_countries_are_written Demo.JSON_parse Demo.URLSearchParams
           (Demo.form_post "email=a%40b.co&countries=5")
           (Sample.world (File (Parsed Sample.document)))
           (JObj [("email", JStr "a@b.co"); ("countries", JStr "5")])
           "a@b.co" "5" (JNum 5) Sample.document); reflexivity.
Defined.

Lemma demo_form_body_last_value_wins :
  ∃ props,
    Subscribe.parseBody Demo.JSON_parse Demo.URLSearchParams
      (Some "countries=NO&email=a%40b.co&countries=SE")
      (Some "application/x-www-form-urlencoded")
    = Normal (JObj props)
    ∧ ∀ key, key ∈ ["email"; "countries"; "created_at"] →
             member (JObj props) key
             = Normal (JStr <$> last_value key
                                  (Demo.URLSearchParams
                                     "countries=NO&email=a%40b.co&countries=SE")).
Proof.
  apply (form_body_last_value_wins Demo.JSON_parse Demo.URLSearchParams);
    [discriminate | reflexivity | reflexivity].
Defined.

Lemma demo_malformed_json_is_internal_error :
  Subscribe.handler Demo.JSON_parse Demo.URLSearchParams (Demo.json_post "{")
    (Sample.world NoFile)
  = (Normal (Subscribe.respond 500 (ErrorBody "Internal server error")),
     Sample.world NoFile).
Proof.
  apply (malformed_json_is_internal_error Demo.JSON_parse Demo.URLSearchParams
           (Demo.json_post "{") (Sample.world NoFile) "{");
    [reflexivity | reflexivity | discriminate | reflexivity | left; reflexivity].
Defined.

Lemma demo_non_string_country_is_internal_error :
  ∃ w',
    Subscribe.handler Demo.JSON_parse Demo.URLSearchParams
      (Demo.json_post Demo.number_array_text)
      (Sample.world (File (Parsed Sample.document)))
    = (Normal (Subscribe.respond 500 (ErrorBody "Internal server error")), w')
    ∧ disk w' = File (Parsed Sample.document).
Proof.
  apply (non_string_country_is_internal_error Demo.JSON_parse Demo.URLSearchParams
           (Demo.json_post Demo.number_array_text)
           (Sample.world (File (Parsed Sample.document)))
           (JObj [("email", JStr "a@b.co"); ("countries", JArr [JNum 5])])
           "a@b.co" [JNum 5]);
    [reflexivity | reflexivity | reflexivity | reflexivity | reflexivity |].
  apply Exists_cons_hd. discriminate.
Defined.

Lemma demo_array_countries_are_uppercased :
  ∃ w',
    Subscribe.handler Demo.JSON_parse Demo.URLSearchParams
      (Demo.json_post Demo.string_array_text)
      (Sample.world (File (Parsed Sample.document)))
    = (Normal (mkResponse 200 [("Content-Type", "application/json")]
                 (SubscribedBody true "Subscription successful"
                    (toLowerCase (trim "a@b.co"))
                    (JArr (map JStr (map toUpperCase ["no"; " se"]))))), w').
Proof.
  apply (array_countries_are_uppercased Demo.JSON_parse Demo.URLSearchParams
           (Demo.json_post Demo.string_array_text)
           (Sample.world (File (Parsed Sample.document)))
           (JObj [("email", JStr "a@b.co");
                  ("countries", JArr [JStr "no"; JStr " se"])])
           "a@b.co" ["no"; " se"] Sample.document);
    [reflexivity | reflexivity | reflexivity | reflexivity | reflexivity
    | discriminate | reflexivity | repeat constructor].
Defined.

Lemma demo_blank_countries_text_is_rejected :
  ∃ w',
    Subscribe.handler Demo.JSON_parse Demo.URLSearchParams
      (Demo.form_post "email=a%40b.co&countries=+%2C+")
      (Sample.world (File (Parsed Sample.document)))
    = (Normal (Subscribe.respond 400
                 (ErrorBody "At least one country must be selected")), w')
    ∧ disk w' = File (Parsed Sample.document).
Proof.
  apply (blank_countries_text_is_rejected Demo.JSON_parse Demo.URLSearchParams
           (Demo.form_post "email=a%40b.co&countries=+%2C+")
           (Sample.world (File (Parsed Sample.document)))
           (JObj [("email", JStr "a@b.co"); ("countries", JStr " , ")])
           "a@b.co" " , "); reflexivity.
Defined.

Lemma demo_comma_separated_countries_are_normalized :
  ∃ codes,
    Subscribe.normalize_countries Demo.JSON_parse (Some (JStr "no, se,,dk "))
    = Normal (JArr (map JStr codes))
    ∧ codes = List.filter (λ c, negb (is_empty c))
                (map (λ piece, toUpperCase (trim piece)) (split "," "no, se,,dk "))
    ∧ Forall (λ c, trim c = c ∧ toUpperCase c = c ∧ c ≠ EmptyString) codes.
Proof.
  apply (comma_separated_countries_are_normalized Demo.JSON_parse). reflexivity.
Defined.

Lemma demo_valid_email_has_one_at :
  count_char "@" "ann@example.com" = 1%nat
  ∧ all_chars (λ c, negb (is_space c)) "ann@example.com" = true.
Proof. apply (valid_email_has_one_at "ann@example.com"). reflexivity. Defined.

Lemma demo_validity_ignores_case :
  Subscribe.isValidEmail (Some (JStr "Ann@Example.COM"))
  = Subscribe.isValidEmail (Some (JStr "ann@example.com")).
Proof. apply (validity_ignores_case "Ann@Example.COM"). reflexivity. Defined.

Lemma demo_listing_is_stable :
  Countries.handler Sample.localeCompare
    (Countries.Config
       (as_config [mkEntry "DE" "Germany" true; mkEntry "NO" "Norway" true;
                   mkEntry "SE" "Sweden" true]))
  = Countries.handler Sample.localeCompare (Countries.Config Sample.config).
Proof.
  apply (listing_is_stable Sample.localeCompare
           sample_compare_flip sample_compare_trans
           (Countries.Config Sample.config) Sample.config); reflexivity.
Defined.

Lemma demo_listing_ignores_input_order :
  Countries.handler Sample.localeCompare (Countries.Config Sample.config)
  = Countries.handler Sample.localeCompare (Countries.Config Demo.config_swapped).
Proof.
  apply (listing_ignores_input_order Sample.localeCompare
           sample_compare_flip sample_compare_trans).
  - apply Permutation_swap.
  - intros a b Ha Hb.
    change (List.filter Countries.not_disabled Sample.config)
      with [Countries.mkCountry "SE" "Sweden" (Some (JBool true));
            Countries.mkCountry "NO" "Norway" None;
            Countries.mkCountry "DE" "Germany" (Some (JBool true))] in Ha, Hb.
    rewrite !elem_of_cons, elem_of_nil in Ha, Hb.
    destruct Ha as [-> | [-> | [-> | []]]], Hb as [-> | [-> | [-> | []]]];
      vm_compute; first [reflexivity | intros H; by destruct H | intros _ H; by destruct H].
Defined.

Lemma demo_one_panel_is_kept :
  Client.one_panel
    (Client.run Demo.form_reset Demo.ToString Demo.null_member_message
       Demo.events (Demo.page, [])).1.
Proof.
  apply (one_panel_is_kept Demo.form_reset Demo.ToString Demo.null_member_message).
  left. unfold Client.shown. simpl. split; [apply not_elem_of_empty|].
  split; intros H; apply H; by apply elem_of_singleton.
Defined.

Lemma demo_submit_sends_when_valid :
  Client.handleSubmit_before Demo.time Demo.robot_page
  = Client.NotSent (Client.showSuccess Demo.robot_page)
  ∧ (∃ request p', Client.handleSubmit_before Demo.time Demo.page
                   = Client.Sent request p')
  ∧ ∀ request p',
      Client.handleSubmit_before Demo.time Demo.page = Client.Sent request p' →
      request = Client.mkRequest "/.netlify/functions/subscribe" "POST"
                  [("Content-Type", "application/json")]
                  (JObj [("email", JStr "Ann@Example.com");
                         ("countries", JArr [JStr "no"; JStr "se"]);
                         ("created_at", JStr Demo.time)])
      ∧ Client.submit_disabled p' = true.
Proof.
  split; [|split].
  - apply (proj1 (submit_sends_when_valid Demo.time Demo.robot_page)).
    exists "http://spam.example". split; [reflexivity | discriminate].
  - apply (proj1 (proj2 (submit_sends_when_valid Demo.time Demo.page))).
    split; [by right|]. split; [reflexivity | discriminate].
  - exact (proj2 (proj2 (submit_sends_when_valid Demo.time Demo.page))).
Defined.

Lemma demo_reply_settles_the_form :
  Client.error_details
    (Client.handleSubmit_after Demo.ToString Demo.null_member_message
       (Client.Answer false 400 (Some (JObj [("error", JStr "Invalid email address")])))
       Demo.page)
  = "Invalid email address".
Proof.
  apply (proj2 (proj2 (proj2 (proj2 (proj2 (proj2
           (reply_settles_the_form Demo.ToString Demo.null_member_message
              (Client.Answer false 400
                 (Some (JObj [("error", JStr "Invalid email address")])))
              Demo.page))))))
           400 [("error", JStr "Invalid email address")] "Invalid email address");
    [reflexivity | reflexivity | discriminate].
Defined.

Lemma demo_sent_submission_is_accepted :
  ∃ w',
    Subscribe.handler Demo.JSON_parse Demo.URLSearchParams
      (Demo.json_post Demo.payload_text)
      (Sample.world (File (Parsed Sample.document)))
    = (Normal (mkResponse 200 [("Content-Type", "application/json")]
                 (SubscribedBody true "Subscription successful"
                    (toLowerCase (trim (Client.email_value Demo.page)))
                    (JArr (map JStr (map toUpperCase
                                       (Client.getSelectedCountries Demo.page)))))),
       w').
Proof.
  eapply (sent_submission_is_accepted Demo.JSON_parse Demo.URLSearchParams
            Demo.time Demo.page _ _ (Demo.json_post Demo.payload_text)
            (Sample.world (File (Parsed Sample.document))) Sample.document);
    [reflexivity | reflexivity | reflexivity | reflexivity | repeat constructor].
Defined.

(** C4 on samples.  The validator rejects [ann.example.com] and
    [ann@example]; a POST without an email is answered 400; the email
    [ Ann@Example ] is rejected and [ Ann@Example.com ] is not, both
    judged in their trimmed, lowercased form; and for the JSON body
    [{"email":5,"countries":["NO"]}] the answer is 500. *)
Lemma sample_non_string_email :
  Subscribe.isValidEmail (Some (JStr "ann.example.com")) = false
  ∧ Subscribe.isValidEmail (Some (JStr "ann@example")) = false
  ∧ (∃ w',
       Subscribe.handler Demo.JSON_parse Demo.URLSearchParams
         Sample.empty_post (Sample.world NoFile)
       = (Normal (Subscribe.respond 400 (ErrorBody "Invalid email address")), w')
       ∧ disk w' = NoFile)
  ∧ (∃ w',
       Subscribe.handler Demo.JSON_parse Demo.URLSearchParams
         (Demo.form_post "email=+Ann%40Example+&countries=NO") (Sample.world NoFile)
       = (Normal (Subscribe.respond 400 (ErrorBody "Invalid email address")), w')
       ∧ disk w' = NoFile)
  ∧ (∃ r w',
       Subscribe.handler Demo.JSON_parse Demo.URLSearchParams
         (Demo.form_post "email=+Ann%40Example.com+&countries=NO")
         (Sample.world NoFile)
       = (Normal r, w')
       ∧ response_body r ≠ ErrorBody "Invalid email address")
  ∧ Subscribe.isValidEmail (Some (JNum 5)) = false
  ∧ Subscribe.handler Demo.JSON_parse Demo.URLSearchParams
      (Demo.json_post Demo.number_email_text) (Sample.world NoFile)
    = (Normal (Subscribe.respond 500 (ErrorBody "Internal server error")),
       Sample.world NoFile).
Proof.
  split; [|split; [|split; [|split; [|split]]]].
  - apply (proj1 (proj2 (C4_non_string_email_is_internal_error Demo.JSON_parse
                           Demo.URLSearchParams "ann.example.com"))).
    reflexivity.
  - apply (proj1 (proj2 (proj2 (C4_non_string_email_is_internal_error
                                  Demo.JSON_parse Demo.URLSearchParams
                                  "ann@example")))
             "ann" "example"); reflexivity.
  - apply (proj1 (proj2 (proj2 (proj2 (C4_non_string_email_is_internal_error
                                         Demo.JSON_parse Demo.URLSearchParams
                                         "bad")))
                    Sample.empty_post (Sample.world NoFile) (JObj []) None
                    eq_refl eq_refl eq_refl)).
    left. reflexivity.
  - apply (proj1 (proj1 (proj2 (proj2 (proj2 (proj2
                   (C4_non_string_email_is_internal_error
                      Demo.JSON_parse Demo.URLSearchParams "ann@example")))
                    (Demo.form_post "email=+Ann%40Example+&countries=NO")
                    (Sample.world NoFile)
                    (JObj [("email", JStr " Ann@Example "); ("countries", JStr "NO")])
                    (Some (JStr " Ann@Example "))
                    eq_refl eq_refl eq_refl))
                  " Ann@Example " eq_refl eq_refl)).
    reflexivity.
  - apply (proj2 (proj1 (proj2 (proj2 (proj2 (proj2
                   (C4_non_string_email_is_internal_error
                      Demo.JSON_parse Demo.URLSearchParams "ann@example.com")))
                    (Demo.form_post "email=+Ann%40Example.com+&countries=NO")
                    (Sample.world NoFile)
                    (JObj [("email", JStr " Ann@Example.com ");
                           ("countries", JStr "NO")])
                    (Some (JStr " Ann@Example.com "))
                    eq_refl eq_refl eq_refl))
                  " Ann@Example.com " eq_refl eq_refl)).
    reflexivity.
  - apply (proj2 (proj2 (proj2 (proj2 (proj2
             (C4_non_string_email_is_internal_error
                Demo.JSON_parse Demo.URLSearchParams "any")))
              (Demo.json_post Demo.number_email_text) (Sample.world NoFile)
              (JObj [("email", JNum 5); ("countries", JArr [JStr "NO"])])
              (Some (JNum 5))
              eq_refl eq_refl eq_refl))
            (JNum 5) eq_refl).
    + discriminate.
    + intros raw. discriminate.
Defined.

(** What the handler answers to the email [ Ann@Example.com ]. *)
Example sample_trimmed_lowercased_email :
  (Subscribe.handler Demo.JSON_parse Demo.URLSearchParams
     (Demo.form_post "email=+Ann%40Example.com+&countries=NO")
     (Sample.world NoFile)).1
  = Normal (mkResponse 200 [("Content-Type", "application/json")]
              (SubscribedBody true "Subscription successful"
                 "ann@example.com" (JArr [JStr "NO"]))).
Proof. reflexivity. Qed.

(** The new countries that a merge appends, in a sample. *)
Example sample_first_occurrences :
  first_occurrences (not_among ["NO"; "SE"] ["SE"; "FI"; "DK"; "FI"; "NO"])
  = ["FI"; "DK"].
Proof. reflexivity. Qed.

(** A save whose countries cannot be joined: the record is written and
    the call returns false. *)
Example sample_unjoinable_countries :
  let sub := mkSubscriber "eve@example.com" (JArr [JObj [("toString", JNum 1)]])
               JNull None true in
  Subscribe.saveSubscriber sub (Sample.world NoFile)
  = (Normal false,
     mkWorld (File (Parsed (mkDocument [sub] (Some "2024-01-01T00:00:00.000Z") "1.0")))
       Sample.clock 1).
Proof. reflexivity. Qed.
